(** * FlowIDEConnectionWatcher: the reconnection state machine

    A shallow embedding of
    [pkg/nuclide-flow-rpc/lib/FlowIDEConnectionWatcher.js].

    The class is event driven: [start()] and [dispose()] are called by
    the client, [_makeIDEConnection] is an [async] function that suspends
    at two [await]s (the process promise, the throttling sleep), and the
    listener registered with [onWillDispose] runs when the connection
    ends.  JavaScript runs each of these pieces to its next suspension
    point without interleaving, so the embedding is a step function: one
    step takes an event of the environment and runs the corresponding
    piece of code on the state of the watcher, returning the observable
    actions it performed (callback invocations, spawn requests, kills,
    sleeps, log lines, promise resolutions).

    Time is the clock behind [_getTimeMS]: an event carries the time at
    which it happens, and every reading of the clock made by the code it
    runs returns that time (as with the mocked clock the method was
    split out for).  Nothing forces the times of successive events to
    increase; the results that need it say so. *)

From stdpp Require Import base numbers list.
From Stdlib Require Import ZArith Lia.

Local Open Scope Z_scope.

(** ** Constants (lines 23-33) *)

Definition IDE_CONNECTION_MAX_WAIT_MS : Z := 20 * 60 * 1000.
Definition IDE_CONNECTION_MIN_INTERVAL_MS : Z := 1000.
Definition IDE_CONNECTION_HEALTHY_THRESHOLD_MS : Z := 10 * 1000.
Definition MAX_UNHEALTHY_CONNECTIONS : Z := 20.

(** ** Data *)

(** A [child_process$ChildProcess] handle, named by the environment. *)
Abbreviation Proc := nat (only parsing).

(** A [FlowIDEConnection] object: its address in the [heap] below. *)
Abbreviation Conn := nat (only parsing).

(** The [IDisposable] returned by [onWillDispose]: it remembers the
    connection whose listener it removes. *)
Inductive Subscription := SubOf (c : Conn).

(** An invocation of [_makeIDEConnection], which is also the promise it
    returned: its index in [cycles] below. *)
Abbreviation CycleId := nat (only parsing).

(** The fields of the class (lines 44-49). *)
Record Watcher := mkWatcher {
  _currentIDEConnection : option Conn;
  _currentIDEConnectionSubscription : option Subscription;
  _consecutiveUnhealthyConnections : Z;
  _isStarted : bool;
  _isDisposed : bool
}.

(** The arrow function passed to [onWillDispose] at line 130, as the one
    variable it captures besides [this]. *)
Record Listener := mkListener { connectionStartTime : Z }.

(** Modelled from the spec: the class FlowIDEConnection is imported from
    ./FlowIDEConnection, which is not among the sources.  Section 6 of
    the specification gives its interface: a one-shot termination
    listener can be registered (it is invoked exactly once, when the
    connection ends by crash, close or explicit disposal) and [dispose]
    is idempotent, ends the connection and triggers the termination
    signal.  The watcher registers one listener on each connection it
    creates, so the object holds at most one. *)
Record Connection := mkConnection {
  conn_proc : Proc;
  conn_ended : bool;
  conn_listener : option Listener
}.

(** A suspended or finished invocation of [_makeIDEConnection]. *)
Inductive Cycle :=
| AwaitProcess (endTimeMS attemptStartTime : Z)  (* suspended at line 94 *)
| AwaitSleep (endTimeMS due : Z)                 (* suspended at line 117 *)
| Returned.                                      (* the promise is resolved *)

(** What [start()] returns. *)
Inductive Promise :=
| PromiseOf (id : CycleId)   (* the promise of that invocation *)
| PromiseResolved.           (* [Promise.resolve()] *)

Inductive LogLine :=
| LogAttempting              (* line 80 *)
| LogRetrying                (* line 106 *)
| LogWaiting (ms : Z)        (* line 113 *)
| LogGiveUpStart             (* line 122 *)
| LogGiveUpUnhealthy.        (* line 138 *)

(** The observable actions of the watcher. *)
Inductive Action :=
| ALog (l : LogLine)
| ASpawn (id : CycleId)          (* lines 89-91: a fresh request to the process source *)
| AKill (p : Proc)               (* line 98 *)
| AFactory (p : Proc) (c : Conn) (* line 128 *)
| ACallback (v : option Conn)    (* lines 129 and 131 *)
| ASleep (id : CycleId) (ms : Z) (* line 117 *)
| ASubDispose (s : Subscription) (* line 166 *)
| AConnDispose (c : Conn)        (* line 169 *)
| AResolve (id : CycleId)        (* an invocation of [_makeIDEConnection] returns *)
| AStartReturns (p : Promise).   (* the value of [start()] *)

(** The state: the watcher, the mocked clock read by [_getTimeMS], the
    connection objects made by the factory and the invocations of
    [_makeIDEConnection]. *)
Record World := mkWorld {
  watcher : Watcher;
  now : Z;
  heap : list Connection;
  cycles : list Cycle
}.

(** The events of the environment. *)
Inductive Event :=
| EStart                                  (* the client calls [start()] *)
| EDispose                                (* the client calls [dispose()] *)
| EProcess (id : CycleId) (proc : option Proc)
                                          (* the process promise of [id] resolves *)
| ESleepDone (id : CycleId)               (* the sleep of [id] is over *)
| ETerminate (c : Conn).                  (* connection [c] ends on its own *)

(** ** A state monad with an output of actions *)

Definition M (A : Type) : Type := World -> A * World * list Action.

Definition ret {A} (a : A) : M A := fun w => (a, w, []).

Definition bind {A B} (m : M A) (k : A -> M B) : M B :=
  fun w =>
    let '(a, w1, o1) := m w in
    let '(b, w2, o2) := k a w1 in
    (b, w2, o1 ++ o2).

Declare Scope watcher_scope.
Delimit Scope watcher_scope with W.
Notation "x <- m ;; k" := (bind m (fun x => k))
  (at level 100, m at next level, right associativity) : watcher_scope.
Notation "m ;;; k" := (bind m (fun _ => k))
  (at level 100, right associativity) : watcher_scope.
Local Open Scope watcher_scope.

Definition emit (a : Action) : M unit := fun w => (tt, w, [a]).
Definition get : M World := fun w => (w, w, []).
Definition modify (f : World -> World) : M unit := fun w => (tt, f w, []).

(** Field updates. *)

Definition with_watcher (f : Watcher -> Watcher) (w : World) : World :=
  mkWorld (f (watcher w)) (now w) (heap w) (cycles w).
Definition with_now (t : Z) (w : World) : World :=
  mkWorld (watcher w) t (heap w) (cycles w).
Definition with_heap (f : list Connection -> list Connection) (w : World) : World :=
  mkWorld (watcher w) (now w) (f (heap w)) (cycles w).
Definition with_cycles (f : list Cycle -> list Cycle) (w : World) : World :=
  mkWorld (watcher w) (now w) (heap w) (f (cycles w)).

Definition set_currentIDEConnection (v : option Conn) (x : Watcher) : Watcher :=
  mkWatcher v (_currentIDEConnectionSubscription x)
    (_consecutiveUnhealthyConnections x) (_isStarted x) (_isDisposed x).
Definition set_currentIDEConnectionSubscription (v : option Subscription)
    (x : Watcher) : Watcher :=
  mkWatcher (_currentIDEConnection x) v
    (_consecutiveUnhealthyConnections x) (_isStarted x) (_isDisposed x).
Definition set_consecutiveUnhealthyConnections (v : Z) (x : Watcher) : Watcher :=
  mkWatcher (_currentIDEConnection x) (_currentIDEConnectionSubscription x)
    v (_isStarted x) (_isDisposed x).
Definition set_isStarted (v : bool) (x : Watcher) : Watcher :=
  mkWatcher (_currentIDEConnection x) (_currentIDEConnectionSubscription x)
    (_consecutiveUnhealthyConnections x) v (_isDisposed x).
Definition set_isDisposed (v : bool) (x : Watcher) : Watcher :=
  mkWatcher (_currentIDEConnection x) (_currentIDEConnectionSubscription x)
    (_consecutiveUnhealthyConnections x) (_isStarted x) v.

Definition this {A} (f : Watcher -> A) : M A := fun w => (f (watcher w), w, []).
Definition assign (f : Watcher -> Watcher) : M unit := modify (with_watcher f).

(** ** The collaborators *)

(** [_getTimeMS] (line 153): [Date.now()]. *)
Definition _getTimeMS : M Z := fun w => (now w, w, []).

(** [_ideConnectionCallback]: the client's callback. *)
Definition _ideConnectionCallback (v : option Conn) : M unit :=
  emit (ACallback v).

(** [_ideConnectionFactory], by default [new FlowIDEConnection(proc)]
    (line 18): a new connection object, with no listener yet. *)
Definition _ideConnectionFactory (p : Proc) : M Conn :=
  w <- get ;;
  let c := length (heap w) in
  modify (with_heap (fun h => h ++ [mkConnection p false None])) ;;;
  emit (AFactory p c) ;;;
  ret c.

(** Modelled from the spec: [ideConnection.onWillDispose(listener)] of
    the absent class FlowIDEConnection registers the termination
    listener and returns the handle that removes it. *)
Definition onWillDispose (c : Conn) (l : Listener) : M Subscription :=
  modify (with_heap (fun h =>
    match h !! c with
    | Some o => <[c := mkConnection (conn_proc o) (conn_ended o) (Some l)]> h
    | None => h
    end)) ;;;
  ret (SubOf c).

(** Modelled from the spec: [subscription.dispose()] on the handle that
    [onWillDispose] of the absent class FlowIDEConnection returned: the
    listener is removed and will not be invoked. *)
Definition Subscription_dispose (s : Subscription) : M unit :=
  emit (ASubDispose s) ;;;
  let 'SubOf c := s in
  modify (with_heap (fun h =>
    match h !! c with
    | Some o => <[c := mkConnection (conn_proc o) (conn_ended o) None]> h
    | None => h
    end)).

(** [x != null]. *)
Definition not_null {A} (x : option A) : bool :=
  match x with Some _ => true | None => false end.

(** ** [_makeIDEConnection] (lines 79-150) *)

Definition set_cycle (id : CycleId) (c : Cycle) : M unit :=
  modify (with_cycles (fun l => <[id := c]> l)).

(** Leaving the async function: its promise resolves. *)
Definition return_ (id : CycleId) : M unit :=
  set_cycle id Returned ;;; emit (AResolve id).

(** Lines 84-94: the head of one iteration of [while (true)], up to the
    [await] of the process promise. *)
Definition attempt (id : CycleId) (endTimeMS : Z) : M unit :=
  attemptStartTime <- _getTimeMS ;;
  emit (ASpawn id) ;;;
  set_cycle id (AwaitProcess endTimeMS attemptStartTime).

(** Lines 80-82 and the entry of the loop.  The call gets a new promise
    (a new entry of [cycles]), runs up to the first [await] and returns
    the promise. *)
Definition _makeIDEConnection : M CycleId :=
  emit (ALog LogAttempting) ;;;
  t <- _getTimeMS ;;
  let endTimeMS := t + IDE_CONNECTION_MAX_WAIT_MS in
  w <- get ;;
  let id := length (cycles w) in
  modify (with_cycles (fun l => l ++ [Returned])) ;;;
  attempt id endTimeMS ;;;
  ret id.

(** Lines 131-146: the listener passed to [onWillDispose]. *)
Definition listener (l : Listener) : M unit :=
  _ideConnectionCallback None ;;;
  t <- _getTimeMS ;;
  let connectionAliveTime := t - connectionStartTime l in
  if connectionAliveTime <? IDE_CONNECTION_HEALTHY_THRESHOLD_MS then
    n <- this _consecutiveUnhealthyConnections ;;
    assign (set_consecutiveUnhealthyConnections (n + 1)) ;;;
    n' <- this _consecutiveUnhealthyConnections ;;
    if n' >=? MAX_UNHEALTHY_CONNECTIONS then
      emit (ALog LogGiveUpUnhealthy)
    else
      _makeIDEConnection ;;; ret tt
  else
    assign (set_consecutiveUnhealthyConnections 0) ;;;
    _makeIDEConnection ;;; ret tt.

(** Lines 121-150: after the loop. *)
Definition after_loop (id : CycleId) (proc : option Proc) : M unit :=
  match proc with
  | None =>
      emit (ALog LogGiveUpStart) ;;;
      return_ id
  | Some p =>
      connectionStartTime <- _getTimeMS ;;
      ideConnection <- _ideConnectionFactory p ;;
      _ideConnectionCallback (Some ideConnection) ;;;
      s <- onWillDispose ideConnection (mkListener connectionStartTime) ;;
      assign (set_currentIDEConnectionSubscription (Some s)) ;;;
      assign (set_currentIDEConnection (Some ideConnection)) ;;;
      return_ id
  end.

(** Lines 94-119: the process promise resolved with [proc]. *)
Definition resume_process (id : CycleId) (endTimeMS attemptStartTime : Z)
    (proc : option Proc) : M unit :=
  d <- this _isDisposed ;;
  if d then
    match proc with
    | Some p => emit (AKill p)
    | None => ret tt
    end ;;;
    return_ id
  else
    attemptEndTime <- _getTimeMS ;;
    if not_null proc || (attemptEndTime >? endTimeMS) then
      after_loop id proc
    else
      emit (ALog LogRetrying) ;;;
      let attemptWallTime := attemptEndTime - attemptStartTime in
      let additionalWaitTime := IDE_CONNECTION_MIN_INTERVAL_MS - attemptWallTime in
      if additionalWaitTime >? 0 then
        emit (ALog (LogWaiting additionalWaitTime)) ;;;
        emit (ASleep id additionalWaitTime) ;;;
        set_cycle id (AwaitSleep endTimeMS (attemptEndTime + additionalWaitTime))
      else
        attempt id endTimeMS.

(** The sleep is over (line 117): the loop goes round.  [_sleep] is the
    [sleep] of nuclide-commons/promise, a timer; [AwaitSleep] records
    when it is due, and the event [ESleepDone] says that it fired. *)
Definition resume_sleep (id : CycleId) (endTimeMS : Z) : M unit :=
  attempt id endTimeMS.

(** ** The connection ends *)

(** Modelled from the spec: what a FlowIDEConnection does when it ends
    (by crash, close or disposal), after Section 6 of the specification:
    the termination listener is invoked exactly once, and an ended
    connection is inert. *)
Definition Connection_end (c : Conn) : M unit :=
  w <- get ;;
  match heap w !! c with
  | Some o =>
      if conn_ended o then ret tt
      else
        modify (with_heap (fun h => <[c := mkConnection (conn_proc o) true None]> h)) ;;;
        match conn_listener o with
        | Some l => listener l
        | None => ret tt
        end
  | None => ret tt
  end.

(** Modelled from the spec: [connection.dispose()], idempotent; it ends
    the connection. *)
Definition Connection_dispose (c : Conn) : M unit :=
  emit (AConnDispose c) ;;;
  Connection_end c.

(** ** [start] (lines 70-77) and [dispose] (lines 162-172) *)

Definition start : M Promise :=
  s <- this _isStarted ;;
  if negb s then
    assign (set_isStarted true) ;;;
    id <- _makeIDEConnection ;;
    ret (PromiseOf id)
  else
    ret PromiseResolved.

Definition dispose : M unit :=
  d <- this _isDisposed ;;
  if negb d then
    assign (set_isDisposed true) ;;;
    s <- this _currentIDEConnectionSubscription ;;
    match s with
    | Some s => Subscription_dispose s
    | None => ret tt
    end ;;;
    c <- this _currentIDEConnection ;;
    match c with
    | Some c => Connection_dispose c
    | None => ret tt
    end
  else
    ret tt.

(** ** The constructor (lines 51-67) and the step function *)

Definition constructor : Watcher := mkWatcher None None 0 false false.

Definition init : World := mkWorld constructor 0 [] [].

(** The code run by one event at time [t]. *)
Definition handler (e : Event) : M unit :=
  match e with
  | EStart => p <- start ;; emit (AStartReturns p)
  | EDispose => dispose
  | EProcess id proc =>
      w <- get ;;
      match cycles w !! id with
      | Some (AwaitProcess endTimeMS attemptStartTime) =>
          resume_process id endTimeMS attemptStartTime proc
      | _ => ret tt
      end
  | ESleepDone id =>
      w <- get ;;
      match cycles w !! id with
      | Some (AwaitSleep endTimeMS _) => resume_sleep id endTimeMS
      | _ => ret tt
      end
  | ETerminate c => Connection_end c
  end.

Definition step (t : Z) (e : Event) (w : World) : World * list Action :=
  let '(_, w', o) := handler e (with_now t w) in (w', o).

(** A run: the events with their times, oldest first. *)
Fixpoint run (tr : list (Z * Event)) (w : World) : World * list Action :=
  match tr with
  | [] => (w, [])
  | (t, e) :: tr' =>
      let '(w1, o1) := step t e w in
      let '(w2, o2) := run tr' w1 in
      (w2, o1 ++ o2)
  end.

Definition callbacks (o : list Action) : list (option Conn) :=
  omap (fun a => match a with ACallback v => Some v | _ => None end) o.

Definition is_spawn (a : Action) : bool :=
  match a with ASpawn _ => true | _ => false end.

Definition spawns (o : list Action) : nat := length (List.filter is_spawn o).

(** ** Counting what is active *)

Definition pending (c : Cycle) : bool :=
  match c with Returned => false | _ => true end.

Definition listening (o : Connection) : bool := not_null (conn_listener o).

Fixpoint count_if {A} (f : A -> bool) (l : list A) : nat :=
  match l with
  | [] => 0
  | x :: l' => (if f x then 1 else 0) + count_if f l'
  end%nat.

Definition npending (w : World) : nat := count_if pending (cycles w).
Definition nlistening (w : World) : nat := count_if listening (heap w).

(** ** The invariant of the reachable states *)

Record WInv (w : World) : Prop := mkWInv {
  (* at most one of: a suspended invocation, a connection being listened to *)
  inv_one : (npending w + nlistening w <= 1)%nat;
  inv_sub : _currentIDEConnectionSubscription (watcher w)
            = SubOf <$> _currentIDEConnection (watcher w);
  inv_cur : forall c o, heap w !! c = Some o -> listening o = true ->
            _currentIDEConnection (watcher w) = Some c /\
            _isDisposed (watcher w) = false;
  inv_ended : forall c o, heap w !! c = Some o ->
              conn_ended o = negb (listening o);
  inv_unstarted : _isStarted (watcher w) = false ->
                  cycles w = [] /\ heap w = [] /\
                  _consecutiveUnhealthyConnections (watcher w) = 0;
  inv_count : 0 <= _consecutiveUnhealthyConnections (watcher w)
                <= MAX_UNHEALTHY_CONNECTIONS /\
              ((1 <= npending w + nlistening w)%nat ->
               _consecutiveUnhealthyConnections (watcher w)
                 < MAX_UNHEALTHY_CONNECTIONS);
  inv_in_heap : forall c, _currentIDEConnection (watcher w) = Some c ->
                (c < length (heap w))%nat
}.

(** ** Supervision has ended *)

Definition quiescent (w : World) : Prop :=
  _isStarted (watcher w) = true /\ npending w = 0%nat /\ nlistening w = 0%nat.

(** ** The sequence of callback values *)

(** [alternates true l]: the values of [l] are in turn a connection, an
    absence, a connection, ... *)
Fixpoint alternates (expect_connection : bool) (l : list (option Conn)) : bool :=
  match l with
  | [] => true
  | v :: l' =>
      Bool.eqb (not_null v) expect_connection
      && alternates (negb expect_connection) l'
  end.

Record HInv (w : World) (o : list Action) : Prop := mkHInv {
  hinv_alt : alternates true (callbacks o) = true;
  hinv_pending : (1 <= npending w)%nat -> Nat.even (length (callbacks o)) = true;
  hinv_listening : (1 <= nlistening w)%nat ->
                   Nat.even (length (callbacks o)) = false;
  hinv_unstarted : _isStarted (watcher w) = false -> callbacks o = []
}.

(** ** After [dispose()] *)

Definition sleeping (c : Cycle) : bool :=
  match c with AwaitSleep _ _ => true | _ => false end.

Definition is_factory (a : Action) : bool :=
  match a with AFactory _ _ => true | _ => false end.

Definition factories (o : list Action) : nat :=
  length (List.filter is_factory o).

(** The attempts a disposed watcher can still start: the one of a first
    [start()], and the one of a loop that is asleep (line 117), which
    wakes up at line 84 and reads [_isDisposed] only at line 96. *)
Definition credit (w : World) : nat :=
  ((if _isStarted (watcher w) then 0 else 1) + count_if sleeping (cycles w))%nat.

(** ** A process source that always yields absence *)

(** The environment that answers every request of invocation [id] with
    an absence and lets its timers run out: the [k]-th answer comes
    [lag k] after the request, the [k]-th timer fires [lag k] after it
    is due.  [fuel] bounds the number of events. *)
Fixpoint absent_source (id : CycleId) (lag : nat -> Z) (k fuel : nat)
    (w : World) : World * list Action :=
  match fuel with
  | O => (w, [])
  | S fuel' =>
      match cycles w !! id with
      | Some (AwaitProcess _ _) =>
          let '(w1, o1) := step (now w + lag k) (EProcess id None) w in
          let '(w2, o2) := absent_source id lag (S k) fuel' w1 in
          (w2, o1 ++ o2)
      | Some (AwaitSleep _ due) =>
          let '(w1, o1) := step (due + lag k) (ESleepDone id) w in
          let '(w2, o2) := absent_source id lag (S k) fuel' w1 in
          (w2, o1 ++ o2)
      | _ => (w, [])
      end
  end.

Definition is_terminate (e : Event) : bool :=
  match e with ETerminate _ => true | _ => false end.

(** ** Teardown *)

Definition is_teardown (a : Action) : bool :=
  match a with ASubDispose _ | AConnDispose _ => true | _ => false end.

Definition teardowns (o : list Action) : nat :=
  length (List.filter is_teardown o).

(** The actions of lines 165-170. *)
Definition teardown (x : Watcher) : list Action :=
  match _currentIDEConnectionSubscription x with
  | Some s => [ASubDispose s]
  | None => []
  end ++
  match _currentIDEConnection x with
  | Some c => [AConnDispose c]
  | None => []
  end.

(** ** Observations and scenarios *)

(** The milliseconds asked of [_sleep]. *)
Definition slept (o : list Action) : Z :=
  foldr (fun a acc => match a with ASleep _ ms => ms + acc | _ => acc end) 0 o.

(** [n] connections in a row that each end one millisecond after they
    were made: invocation [k] gets handle [k] at time [t], and so on. *)
Fixpoint crash_loop (n : nat) (k : nat) (t : Z) : list (Z * Event) :=
  match n with
  | O => []
  | S n' =>
      (t, EProcess k (Some k)) :: (t + 1, ETerminate k)
      :: crash_loop n' (S k) (t + 1)
  end.

(** Nineteen short-lived connections in a row, and a twentieth one made
    at time 19. *)
Definition nineteen_crashes : list (Z * Event) :=
  (0, EStart) :: crash_loop 19 0 0 ++ [(19, EProcess 19%nat (Some 19%nat))].

(** Three short-lived connections, then one made at time 3 that is
    still alive at time 20000. *)
Definition three_crashes : list (Z * Event) :=
  (0, EStart) :: crash_loop 3 0 0 ++ [(3, EProcess 3%nat (Some 3%nat))].

(** A first request answered by an absence after 200 ms, and
    [dispose()] during the sleep that follows. *)
Definition disposed_asleep : list (Z * Event) :=
  [(0, EStart); (200, EProcess 0%nat None); (300, EDispose)].

(** One connection, made at time 5 from handle 7. *)
Definition connected : list (Z * Event) :=
  [(0, EStart); (5, EProcess 0%nat (Some 7%nat))].

(** That connection ends on its own after 20 s, and a new cycle is
    under way. *)
Definition reconnect : list (Z * Event) :=
  connected ++ [(20000, ETerminate 0%nat)].

(** The twentieth short-lived connection in a row has ended, at time
    20, and the watcher has given up. *)
Definition given_up : list (Z * Event) :=
  nineteen_crashes ++ [(20, ETerminate 19%nat)].

(** ** Further observations *)

(** A connection that has not ended. *)
Definition live (o : Connection) : bool := negb (conn_ended o).

(** The [endTimeMS] of a suspended invocation (line 82). *)
Definition deadline (c : Cycle) : option Z :=
  match c with
  | AwaitProcess endTimeMS _ | AwaitSleep endTimeMS _ => Some endTimeMS
  | Returned => None
  end.


(** The calls of [connection.dispose()] (line 169). *)
Definition is_connection_dispose (a : Action) : bool :=
  match a with AConnDispose _ => true | _ => false end.

Definition disposals (o : list Action) : nat :=
  length (List.filter is_connection_dispose o).

(** [dispose()] while connected, and once more after the connection
    object reported its end. *)
Definition disposed_twice : list (Z * Event) :=
  connected ++ [(50, EDispose); (55, ETerminate 0%nat); (60, EDispose)].

(** * Proofs *)

(** ** Lists *)

Lemma count_if_snoc {A} (f : A -> bool) l x :
  count_if f (l ++ [x]) = (count_if f l + (if f x then 1 else 0))%nat.
Proof. induction l as [|y l IH]; simpl; [lia | rewrite IH; lia]. Qed.

Lemma count_if_insert {A} (f : A -> bool) l i x y :
  l !! i = Some x ->
  (count_if f (<[i:=y]> l) + (if f x then 1 else 0)
   = count_if f l + (if f y then 1 else 0))%nat.
Proof.
  revert i. induction l as [|z l IH]; intros [|i] H; simplify_eq/=.
  - lia.
  - specialize (IH _ H). lia.
Qed.

Lemma count_if_zero {A} (f : A -> bool) l i x :
  count_if f l = 0%nat -> l !! i = Some x -> f x = false.
Proof.
  revert i. induction l as [|z l IH]; intros [|i] H0 H; simplify_eq/=.
  - destruct (f x); [lia | done].
  - apply (IH i); [lia | done].
Qed.

Lemma count_if_lookup {A} (f : A -> bool) l i x :
  l !! i = Some x -> f x = true -> (1 <= count_if f l)%nat.
Proof.
  revert i. induction l as [|z l IH]; intros [|i] H Hx; simplify_eq/=.
  - rewrite Hx. lia.
  - specialize (IH _ H Hx). lia.
Qed.

Lemma count_if_insert_zero {A} (f : A -> bool) l i y :
  count_if f l = 0%nat -> f y = false -> count_if f (<[i:=y]> l) = 0%nat.
Proof.
  revert i. induction l as [|z l IH]; intros [|i] H Hy; simpl in *; try done.
  - rewrite Hy. destruct (f z); simpl in *; lia.
  - destruct (f z); simpl in *; [lia|]. by apply IH.
Qed.

Lemma lookup_snoc_len {A} (l : list A) x : (l ++ [x]) !! length l = Some x.
Proof. induction l; simpl; auto. Qed.

Lemma insert_snoc_len {A} (l : list A) x y : <[length l := y]> (l ++ [x]) = l ++ [y].
Proof. induction l; simpl; [done | congruence]. Qed.

Lemma lookup_insert_same {A} (l : list A) i x y :
  l !! i = Some x -> <[i:=y]> l !! i = Some y.
Proof. intros H. apply list_lookup_insert_eq. by eapply lookup_lt_Some. Qed.

(** ** Running one piece of code symbolically *)

Ltac unfold_code :=
  unfold step, handler, start, dispose, resume_sleep, resume_process,
    after_loop, Connection_dispose, Connection_end, listener,
    _makeIDEConnection,
    attempt, return_, set_cycle, Subscription_dispose, onWillDispose,
    _ideConnectionFactory, _ideConnectionCallback, _getTimeMS,
    assign, this, modify, get, emit, bind, ret,
    with_watcher, with_now, with_heap, with_cycles,
    set_currentIDEConnection, set_currentIDEConnectionSubscription,
    set_consecutiveUnhealthyConnections, set_isStarted, set_isDisposed in *.

Ltac split_world w :=
  let x := fresh "x" in
  destruct w as [x ? ? ?]; destruct x.

(** Case analysis on the innermost test the code is stuck on. *)
Ltac branch :=
  match goal with
  | |- context [match ?x with _ => _ end] =>
      lazymatch x with
      | context [match _ with _ => _ end] => fail
      | _ => destruct x eqn:?
      end
  | H : context [match ?x with _ => _ end] |- _ =>
      lazymatch x with
      | context [match _ with _ => _ end] => fail
      | _ => destruct x eqn:?
      end
  end.

Ltac zify_tests :=
  repeat match goal with
  | H : (_ >? _) = _ |- _ => rewrite Z.gtb_ltb in H
  | H : (_ >=? _) = _ |- _ => rewrite Z.geb_leb in H
  | H : (_ <? _) = true |- _ => apply Z.ltb_lt in H
  | H : (_ <? _) = false |- _ => apply Z.ltb_ge in H
  | H : (_ <=? _) = true |- _ => apply Z.leb_le in H
  | H : (_ <=? _) = false |- _ => apply Z.leb_gt in H
  end.

Ltac list_norm :=
  rewrite ?lookup_snoc_len, ?insert_snoc_len, ?list_insert_insert_eq in *;
  repeat match goal with
  | H : ?l !! ?i = Some ?x |- context [<[?i:=?y]> ?l !! ?i] =>
      rewrite (lookup_insert_same l i x y H)
  | H : ?l !! ?i = Some ?x, H' : context [<[?i:=?y]> ?l !! ?i] |- _ =>
      rewrite (lookup_insert_same l i x y H) in H'
  end.

Ltac crunch :=
  unfold_code; simpl in *; simplify_eq; list_norm;
  repeat (branch; simplify_eq; simpl in *; list_norm).

Ltac use_heap_inv :=
  repeat match goal with
  | I : (forall c o, ?h !! c = Some o -> conn_ended o = negb (listening o)),
    H : ?h !! ?c = Some ?o |- _ =>
      lazymatch goal with
      | _ : conn_ended o = negb (listening o) |- _ => fail
      | _ => pose proof (I c o H)
      end
  end.

Ltac listen_facts :=
  repeat match goal with
  | H : conn_listener ?o = ?v |- _ =>
      lazymatch goal with
      | _ : listening o = _ |- _ => fail
      | _ => assert (listening o = not_null v)
               by (unfold listening; rewrite H; reflexivity)
      end
  end; simpl not_null in *.

Ltac count_facts :=
  repeat match goal with
  | H : ?l !! ?i = Some ?x |- context [count_if ?f (<[?i:=?y]> ?l)] =>
      let E := fresh "E" in
      pose proof (count_if_insert f l i x y H) as E;
      let n := fresh "n" in
      set (n := count_if f (<[i:=y]> l)) in *; clearbody n
  end.

Ltac rewrite_listening :=
  repeat match goal with
  | H : listening ?o = _, H' : context [listening ?o] |- _ =>
      rewrite H in H'; simpl in H'
  | H : listening ?o = _ |- context [listening ?o] => rewrite H; simpl
  end.

(** Goals about every object of an updated heap. *)
Ltac heap_cases :=
  let c := fresh "c" in let o := fresh "o" in let Hl := fresh "Hl" in
  intros c o Hl;
  repeat match type of Hl with
  | <[?i:=_]> _ !! _ = Some _ =>
      apply list_lookup_insert_Some in Hl;
      destruct Hl as [(-> & <- & ?) | (? & Hl)]
  | (_ ++ [_]) !! _ = Some _ =>
      apply lookup_snoc_Some in Hl;
      destruct Hl as [(? & Hl) | (-> & <-)]
  end.

Ltac insert_cases :=
  repeat match goal with
  | H : <[_:=_]> _ !! _ = Some _ |- _ =>
      apply list_lookup_insert_Some in H;
      destruct H as [(-> & <- & ?) | (? & H)]; simpl in *
  | H : <[_:=_]> _ !! _ = None |- _ =>
      apply list_lookup_insert_None in H; simpl in H
  end.

Ltac nothing_active :=
  repeat match goal with
  | Z0 : count_if ?f ?l = 0%nat, H : ?l !! _ = Some ?x |- _ =>
      lazymatch goal with
      | _ : f x = false |- _ => fail
      | _ => pose proof (count_if_zero f l _ x Z0 H)
      end
  end.

(** ** A first run *)

(** The first request fails after 200 ms, the second one yields handle
    7; the connection ends 3.7 s after it was made. *)
Example run_first_connection :
  run [(0, EStart); (200, EProcess 0%nat None); (1000, ESleepDone 0%nat);
       (1300, EProcess 0%nat (Some 7%nat)); (5000, ETerminate 0%nat)] init
  = (mkWorld (mkWatcher (Some 0%nat) (Some (SubOf 0%nat)) 1 true false) 5000
       [mkConnection 7%nat true None] [Returned; AwaitProcess 1205000 5000],
     [ALog LogAttempting; ASpawn 0%nat; AStartReturns (PromiseOf 0%nat);
      ALog LogRetrying; ALog (LogWaiting 800); ASleep 0%nat 800;
      ASpawn 0%nat;
      AFactory 7%nat 0%nat; ACallback (Some 0%nat); AResolve 0%nat;
      ACallback None; ALog LogAttempting; ASpawn 1%nat]).
Proof. vm_compute. reflexivity. Qed.

(** ** The invariant is preserved *)

Lemma WInv_step t e w w' o :
  WInv w -> step t e w = (w', o) -> WInv w'.
Proof.
  intros [I1 I2 I3 I4 I5 I6 I7] H. split_world w. unfold npending, nlistening in *.
  simpl in *.
  match goal with b : bool |- _ =>
    match type of I5 with b = false -> _ => destruct b end end;
    [clear I5 | destruct I5 as (-> & -> & ->); [done|]].
  all: destruct e; crunch; simplify_eq.
  all: use_heap_inv; listen_facts; rewrite_listening; try congruence.
  all: constructor; unfold npending, nlistening; simpl; try done.
  all: rewrite ?count_if_snoc; count_facts; simpl in *; rewrite_listening.
  all: unfold MAX_UNHEALTHY_CONNECTIONS in *; zify_tests; try lia.
  all: try (heap_cases; simpl; eauto; fail).
  all: try (heap_cases; intros L; try discriminate L;
            match goal with I : forall c o, _ -> _ -> _ /\ _ |- _ =>
              destruct (I _ _ ltac:(eassumption) L) end; congruence).
  all: try (intros ? ?; simplify_eq; rewrite ?length_insert, ?length_app;
            simpl; (eauto using lookup_lt_Some || lia)).
  (* the new connection: no other one is listened to *)
  heap_cases; [|done]. intros L.
  match goal with H : _ !! _ = Some (AwaitProcess _ _) |- _ =>
    pose proof (count_if_lookup pending _ _ _ H eq_refl) as P end.
  match goal with H : ?h !! _ = Some ?x, L : listening ?x = true |- _ =>
    assert (count_if listening h = 0%nat) as Z0 by (clear -P I1; lia);
    rewrite (count_if_zero _ _ _ _ Z0 H) in L end.
  done.
Qed.

Lemma WInv_init : WInv init.
Proof.
  constructor; simpl; try done.
  unfold MAX_UNHEALTHY_CONNECTIONS, npending, nlistening; simpl. lia.
Qed.

Lemma WInv_run tr : forall w w' o,
  WInv w -> run tr w = (w', o) -> WInv w'.
Proof.
  induction tr as [|[t e] tr IH]; intros w w' o Hw H; simpl in H.
  - by simplify_eq.
  - destruct (step t e w) as [w1 o1] eqn:E1.
    destruct (run tr w1) as [w2 o2] eqn:E2. simplify_eq.
    eapply IH; [|done]. by eapply WInv_step.
Qed.

(** ** [start], [dispose] and the pieces of [_makeIDEConnection], as
    equations *)

Lemma step_start_first t w :
  _isStarted (watcher w) = false ->
  step t EStart w
  = (with_cycles (fun l => l ++ [AwaitProcess (t + IDE_CONNECTION_MAX_WAIT_MS) t])
       (with_watcher (set_isStarted true) (with_now t w)),
     [ALog LogAttempting; ASpawn (length (cycles w));
      AStartReturns (PromiseOf (length (cycles w)))]).
Proof. intros H. split_world w. crunch; simplify_eq. done. Qed.

Lemma step_start_again t w :
  _isStarted (watcher w) = true ->
  step t EStart w = (with_now t w, [AStartReturns PromiseResolved]).
Proof. intros H. split_world w. crunch; simplify_eq. done. Qed.

Lemma step_dispose_again t w :
  _isDisposed (watcher w) = true ->
  step t EDispose w = (with_now t w, []).
Proof. intros H. split_world w. crunch; simplify_eq. done. Qed.

Lemma step_process_disposed t id proc w endTimeMS attemptStartTime :
  cycles w !! id = Some (AwaitProcess endTimeMS attemptStartTime) ->
  _isDisposed (watcher w) = true ->
  step t (EProcess id proc) w
  = (with_cycles (fun l => <[id := Returned]> l) (with_now t w),
     match proc with Some p => [AKill p] | None => [] end ++ [AResolve id]).
Proof. intros H D. split_world w. crunch; simplify_eq; done. Qed.

Lemma step_process_give_up t id w endTimeMS attemptStartTime :
  cycles w !! id = Some (AwaitProcess endTimeMS attemptStartTime) ->
  _isDisposed (watcher w) = false ->
  endTimeMS < t ->
  step t (EProcess id None) w
  = (with_cycles (fun l => <[id := Returned]> l) (with_now t w),
     [ALog LogGiveUpStart; AResolve id]).
Proof.
  intros H D L. split_world w. crunch; simplify_eq; zify_tests; try lia; done.
Qed.

Lemma step_process_sleep t id w endTimeMS attemptStartTime :
  cycles w !! id = Some (AwaitProcess endTimeMS attemptStartTime) ->
  _isDisposed (watcher w) = false ->
  t <= endTimeMS ->
  0 < IDE_CONNECTION_MIN_INTERVAL_MS - (t - attemptStartTime) ->
  step t (EProcess id None) w
  = (with_cycles (fun l => <[id := AwaitSleep endTimeMS
         (t + (IDE_CONNECTION_MIN_INTERVAL_MS - (t - attemptStartTime)))]> l)
       (with_now t w),
     [ALog LogRetrying;
      ALog (LogWaiting (IDE_CONNECTION_MIN_INTERVAL_MS - (t - attemptStartTime)));
      ASleep id (IDE_CONNECTION_MIN_INTERVAL_MS - (t - attemptStartTime))]).
Proof.
  intros H D L1 L2. split_world w. crunch; simplify_eq; zify_tests; try lia; done.
Qed.

Lemma step_process_retry t id w endTimeMS attemptStartTime :
  cycles w !! id = Some (AwaitProcess endTimeMS attemptStartTime) ->
  _isDisposed (watcher w) = false ->
  t <= endTimeMS ->
  IDE_CONNECTION_MIN_INTERVAL_MS - (t - attemptStartTime) <= 0 ->
  step t (EProcess id None) w
  = (with_cycles (fun l => <[id := AwaitProcess endTimeMS t]> l) (with_now t w),
     [ALog LogRetrying; ASpawn id]).
Proof.
  intros H D L1 L2. split_world w. crunch; simplify_eq; zify_tests; try lia; done.
Qed.

Lemma step_process_connect t id p w endTimeMS attemptStartTime :
  cycles w !! id = Some (AwaitProcess endTimeMS attemptStartTime) ->
  _isDisposed (watcher w) = false ->
  step t (EProcess id (Some p)) w
  = (mkWorld
       (set_currentIDEConnection (Some (length (heap w)))
          (set_currentIDEConnectionSubscription (Some (SubOf (length (heap w))))
             (watcher w)))
       t
       (heap w ++ [mkConnection p false (Some (mkListener t))])
       (<[id := Returned]> (cycles w)),
     [AFactory p (length (heap w)); ACallback (Some (length (heap w)));
      AResolve id]).
Proof. intros H D. split_world w. crunch; simplify_eq; done. Qed.

Lemma step_sleep_done t id w endTimeMS due :
  cycles w !! id = Some (AwaitSleep endTimeMS due) ->
  step t (ESleepDone id) w
  = (with_cycles (fun l => <[id := AwaitProcess endTimeMS t]> l) (with_now t w),
     [ASpawn id]).
Proof. intros H. split_world w. crunch; simplify_eq; done. Qed.

(** ** The listener, as equations *)

Lemma step_terminate_give_up t c w o l :
  heap w !! c = Some o -> conn_ended o = false -> conn_listener o = Some l ->
  t - connectionStartTime l < IDE_CONNECTION_HEALTHY_THRESHOLD_MS ->
  MAX_UNHEALTHY_CONNECTIONS <= _consecutiveUnhealthyConnections (watcher w) + 1 ->
  step t (ETerminate c) w
  = (mkWorld
       (set_consecutiveUnhealthyConnections
          (_consecutiveUnhealthyConnections (watcher w) + 1) (watcher w))
       t (<[c := mkConnection (conn_proc o) true None]> (heap w)) (cycles w),
     [ACallback None; ALog LogGiveUpUnhealthy]).
Proof.
  intros H E L T N. split_world w. crunch; simplify_eq; zify_tests; try lia; done.
Qed.

Lemma step_terminate_unhealthy t c w o l :
  heap w !! c = Some o -> conn_ended o = false -> conn_listener o = Some l ->
  t - connectionStartTime l < IDE_CONNECTION_HEALTHY_THRESHOLD_MS ->
  _consecutiveUnhealthyConnections (watcher w) + 1 < MAX_UNHEALTHY_CONNECTIONS ->
  step t (ETerminate c) w
  = (mkWorld
       (set_consecutiveUnhealthyConnections
          (_consecutiveUnhealthyConnections (watcher w) + 1) (watcher w))
       t (<[c := mkConnection (conn_proc o) true None]> (heap w))
       (cycles w ++ [AwaitProcess (t + IDE_CONNECTION_MAX_WAIT_MS) t]),
     [ACallback None; ALog LogAttempting; ASpawn (length (cycles w))]).
Proof.
  intros H E L T N. split_world w. crunch; simplify_eq; zify_tests; try lia; done.
Qed.

Lemma step_terminate_healthy t c w o l :
  heap w !! c = Some o -> conn_ended o = false -> conn_listener o = Some l ->
  IDE_CONNECTION_HEALTHY_THRESHOLD_MS <= t - connectionStartTime l ->
  step t (ETerminate c) w
  = (mkWorld
       (set_consecutiveUnhealthyConnections 0 (watcher w))
       t (<[c := mkConnection (conn_proc o) true None]> (heap w))
       (cycles w ++ [AwaitProcess (t + IDE_CONNECTION_MAX_WAIT_MS) t]),
     [ACallback None; ALog LogAttempting; ASpawn (length (cycles w))]).
Proof.
  intros H E L T. split_world w. crunch; simplify_eq; zify_tests; try lia; done.
Qed.

Lemma quiescent_step t e w w' o :
  quiescent w -> step t e w = (w', o) ->
  quiescent w' /\ spawns o = 0%nat /\ callbacks o = [].
Proof.
  intros (S & P & L) H. split_world w. unfold quiescent, npending, nlistening in *.
  simpl in *. subst.
  destruct e; crunch; simplify_eq; insert_cases; listen_facts;
    nothing_active; try congruence.
  all: repeat split; simpl; try done.
  all: try (repeat (apply count_if_insert_zero; [|done]); done).
  all: count_facts; rewrite_listening; simpl in *; lia.
Qed.

Lemma quiescent_run tr : forall w w' o,
  quiescent w -> run tr w = (w', o) ->
  quiescent w' /\ spawns o = 0%nat /\ callbacks o = [].
Proof.
  induction tr as [|[t e] tr IH]; intros w w' o Q H; simpl in H.
  - by simplify_eq.
  - destruct (step t e w) as [w1 o1] eqn:E1.
    destruct (run tr w1) as [w2 o2] eqn:E2. simplify_eq.
    destruct (quiescent_step _ _ _ _ _ Q E1) as (Q1 & S1 & C1).
    destruct (IH _ _ _ Q1 E2) as (Q2 & S2 & C2).
    split; [done|]. unfold spawns, callbacks in *.
    rewrite List.filter_app, length_app, omap_app, S1, S2, C1, C2. done.
Qed.

(** ** The callback, step by step *)

Lemma step_callbacks t e w w' o :
  WInv w -> step t e w = (w', o) ->
  (callbacks o = [] /\
   ((1 <= npending w')%nat ->
      (1 <= npending w)%nat \/ _isStarted (watcher w) = false) /\
   ((1 <= nlistening w')%nat -> (1 <= nlistening w)%nat))
  \/ (exists c, callbacks o = [Some c] /\ (1 <= npending w)%nat /\
        npending w' = 0%nat)
  \/ (callbacks o = [None] /\ (1 <= nlistening w)%nat /\
        nlistening w' = 0%nat).
Proof.
  intros [I1 I2 I3 I4 I5 I6 I7] H. split_world w. unfold npending, nlistening in *.
  simpl in *.
  destruct e; crunch; simplify_eq.
  all: use_heap_inv; listen_facts; rewrite_listening; try congruence.
  all: unfold npending, nlistening; simpl.
  all: rewrite ?count_if_snoc; count_facts; simpl in *; rewrite_listening.
  all: first
    [ left; split; [reflexivity|]; split; [intros; try lia; auto | intros; lia]
    | right; left; eexists; split; [reflexivity|]; lia
    | right; right; split; [reflexivity|]; lia
    | idtac ].
  destruct _isStarted0; [discriminate | by right].
Qed.

Lemma alternates_snoc l : forall e v,
  alternates e (l ++ [v])
  = alternates e l
    && Bool.eqb (not_null v) (if Nat.even (length l) then e else negb e).
Proof.
  induction l as [|x l IH]; intros e v.
  - simpl. by rewrite andb_true_r.
  - change (length (x :: l)) with (S (length l)).
    rewrite Nat.even_succ, <- Nat.negb_even.
    simpl. rewrite IH, andb_assoc.
    by destruct (Nat.even (length l)), e.
Qed.

Lemma step_started t e w w' o :
  WInv w -> step t e w = (w', o) ->
  (_isStarted (watcher w) = true -> _isStarted (watcher w') = true) /\
  (_isStarted (watcher w') = false -> callbacks o = []).
Proof.
  intros [I1 I2 I3 I4 I5 I6 I7] H. split_world w. simpl in *.
  match goal with b : bool |- _ =>
    match type of I5 with b = false -> _ => destruct b end end;
    [clear I5 | destruct I5 as (-> & -> & ->); [done|]].
  all: destruct e; crunch; simplify_eq; done.
Qed.

Lemma callbacks_app a b : callbacks (a ++ b) = callbacks a ++ callbacks b.
Proof. apply omap_app. Qed.

Lemma spawns_app a b : spawns (a ++ b) = (spawns a + spawns b)%nat.
Proof. unfold spawns. by rewrite List.filter_app, length_app. Qed.

Lemma even_snoc {A} (l : list A) x :
  Nat.even (length (l ++ [x])) = negb (Nat.even (length l)).
Proof.
  rewrite length_app. simpl.
  by rewrite Nat.add_1_r, Nat.even_succ, <- Nat.negb_even.
Qed.

Lemma HInv_step t e w w' o0 o :
  WInv w -> HInv w o0 -> step t e w = (w', o) -> HInv w' (o0 ++ o).
Proof.
  intros I [A P L U] H.
  destruct (step_started _ _ _ _ _ I H) as [S1 S2].
  pose proof (inv_one _ (WInv_step _ _ _ _ _ I H)) as One'.
  pose proof (inv_one _ I) as One.
  assert (_isStarted (watcher w') = false -> _isStarted (watcher w) = false) as S3.
  { destruct (_isStarted (watcher w)); [|done]. intros X.
    specialize (S1 eq_refl). congruence. }
  destruct (step_callbacks _ _ _ _ _ I H)
    as [(C & P' & L') | [(c & C & P' & L') | (C & P' & L')]];
    constructor; rewrite callbacks_app, C, ?app_nil_r, ?even_snoc; auto.
  - intros X. destruct (P' X) as [Y|Y]; [auto|]. by rewrite (U Y).
  - rewrite alternates_snoc, A, (P P'). done.
  - lia.
  - intros _. by rewrite (P P').
  - intros X. pose proof (inv_unstarted _ I (S3 X)) as (Y & _).
    unfold npending in P'. rewrite Y in P'. simpl in P'. lia.
  - rewrite alternates_snoc, A, (L P'). done.
  - intros _. by rewrite (L P').
  - lia.
  - intros X. pose proof (inv_unstarted _ I (S3 X)) as (_ & Y & _).
    unfold nlistening in P'. rewrite Y in P'. simpl in P'. lia.
Qed.

Lemma HInv_run tr : forall w w' o0 o,
  WInv w -> HInv w o0 -> run tr w = (w', o) -> HInv w' (o0 ++ o).
Proof.
  induction tr as [|[t e] tr IH]; intros w w' o0 o I Hh H; simpl in H.
  - simplify_eq. by rewrite app_nil_r.
  - destruct (step t e w) as [w1 o1] eqn:E1.
    destruct (run tr w1) as [w2 o2] eqn:E2. simplify_eq.
    rewrite app_assoc. eapply IH; [| |done].
    + by eapply WInv_step.
    + by eapply HInv_step.
Qed.

Lemma HInv_init : HInv init [].
Proof. constructor; simpl; try done; unfold npending, nlistening; simpl; lia. Qed.

Lemma step_callback_connection t e w w' o c :
  step t e w = (w', o) -> In (ACallback (Some c)) o ->
  exists id p endTimeMS attemptStartTime,
    e = EProcess id (Some p) /\
    cycles w !! id = Some (AwaitProcess endTimeMS attemptStartTime) /\
    o = [AFactory p c; ACallback (Some c); AResolve id].
Proof.
  intros H Hin. split_world w.
  destruct e; crunch; simplify_eq; simpl in Hin; intuition (try discriminate).
  all: simplify_eq; eauto 10.
Qed.

Lemma factories_app a b : factories (a ++ b) = (factories a + factories b)%nat.
Proof. unfold factories. by rewrite List.filter_app, length_app. Qed.

Lemma count_if_le {A} (f g : A -> bool) l :
  (forall x, f x = true -> g x = true) ->
  (count_if f l <= count_if g l)%nat.
Proof.
  intros H. induction l as [|x l IH]; simpl; [lia|].
  destruct (f x) eqn:E; [rewrite (H _ E)|destruct (g x)]; lia.
Qed.

Lemma credit_le_one w : WInv w -> (credit w <= 1)%nat.
Proof.
  intros I. unfold credit.
  destruct (_isStarted (watcher w)) eqn:E.
  - pose proof (inv_one _ I). unfold npending in *.
    pose proof (count_if_le sleeping pending (cycles w)) as L.
    assert (forall x, sleeping x = true -> pending x = true) as X
      by (by intros []).
    specialize (L X). lia.
  - destruct (inv_unstarted _ I E) as (-> & _). simpl. lia.
Qed.

Lemma disposed_step t e w w' o :
  WInv w -> _isDisposed (watcher w) = true -> step t e w = (w', o) ->
  _isDisposed (watcher w') = true /\ callbacks o = [] /\
  factories o = 0%nat /\ (spawns o + credit w' <= credit w)%nat.
Proof.
  intros [I1 I2 I3 I4 I5 I6 I7] D H. split_world w. unfold credit in *.
  simpl in *. subst.
  destruct e; crunch; simplify_eq.
  all: use_heap_inv; listen_facts; rewrite_listening; try congruence.
  all: try match goal with
       | I : forall c o, _ -> _ -> _ /\ true = false, L : listening _ = true |- _ =>
           destruct (I _ _ ltac:(eassumption) L); discriminate
       end.
  all: repeat split; simpl; try done.
  all: rewrite ?count_if_snoc; count_facts; simpl in *; try lia.
Qed.

Lemma disposed_run tr : forall w w' o,
  WInv w -> _isDisposed (watcher w) = true -> run tr w = (w', o) ->
  _isDisposed (watcher w') = true /\ callbacks o = [] /\
  factories o = 0%nat /\ (spawns o + credit w' <= credit w)%nat.
Proof.
  induction tr as [|[t e] tr IH]; intros w w' o I D H; simpl in H.
  - simplify_eq. repeat split; try done; simpl; lia.
  - destruct (step t e w) as [w1 o1] eqn:E1.
    destruct (run tr w1) as [w2 o2] eqn:E2. simplify_eq.
    destruct (disposed_step _ _ _ _ _ I D E1) as (D1 & C1 & F1 & S1).
    destruct (IH _ _ _ (WInv_step _ _ _ _ _ I E1) D1 E2) as (D2 & C2 & F2 & S2).
    rewrite callbacks_app, factories_app, spawns_app, C1, C2, F1, F2.
    repeat split; try done. lia.
Qed.

Lemma absent_source_gives_up id lag (Hlag : forall i, 0 <= lag i) n :
  forall k fuel w endTimeMS attemptStartTime,
    _isDisposed (watcher w) = false ->
    cycles w !! id = Some (AwaitProcess endTimeMS attemptStartTime) ->
    attemptStartTime <= now w ->
    endTimeMS - attemptStartTime < IDE_CONNECTION_MIN_INTERVAL_MS * Z.of_nat n ->
    (2 * n + 1 <= fuel)%nat ->
    exists o t,
      absent_source id lag k fuel w
      = (mkWorld (watcher w) t (heap w) (<[id := Returned]> (cycles w)),
         o ++ [ALog LogGiveUpStart; AResolve id]) /\
      endTimeMS < t /\ callbacks o = [] /\ factories o = 0%nat /\
      (spawns o <= n)%nat.
Proof.
  unfold IDE_CONNECTION_MIN_INTERVAL_MS.
  induction n as [|n IH]; intros k fuel w endT st D C Hst M F.
  - destruct fuel as [|fuel]; [lia|]. simpl. rewrite C.
    pose proof (Hlag k).
    rewrite (step_process_give_up _ _ _ _ _ C D) by lia.
    destruct fuel; simpl; [|rewrite (lookup_insert_same _ _ _ _ C)].
    all: exists [], (now w + lag k); repeat split; unfold spawns; simpl;
        try done; lia.
  - destruct fuel as [|fuel]; [lia|]. simpl. rewrite C.
    pose proof (Hlag k) as L0.
    destruct (Z.ltb_spec endT (now w + lag k)) as [G|G];
      [|destruct (Z.ltb_spec 0 (IDE_CONNECTION_MIN_INTERVAL_MS
                                 - (now w + lag k - st))) as [W|W]].
    + rewrite (step_process_give_up _ _ _ _ _ C D) by lia.
      destruct fuel; simpl; [|rewrite (lookup_insert_same _ _ _ _ C)].
      all: exists [], (now w + lag k); repeat split; unfold spawns; simpl;
        try done; lia.
    + rewrite (step_process_sleep _ _ _ _ _ C D) by done.
      destruct fuel as [|fuel]; [lia|].
      remember (S fuel) as fuel1. simpl. subst fuel1.
      set (w1 := with_cycles _ _).
      assert (cycles w1 !! id = Some (AwaitSleep endT
                (now w + lag k + (IDE_CONNECTION_MIN_INTERVAL_MS
                                   - (now w + lag k - st))))) as C1
        by (apply (lookup_insert_same _ _ _ _ C)).
      change (absent_source id lag (S k) (S fuel) w1) with
        (match cycles w1 !! id with
         | Some (AwaitProcess _ _) =>
             let '(w1', o1) := step (now w1 + lag (S k)) (EProcess id None) w1 in
             let '(w2, o2) := absent_source id lag (S (S k)) fuel w1' in
             (w2, o1 ++ o2)
         | Some (AwaitSleep _ due) =>
             let '(w1', o1) := step (due + lag (S k)) (ESleepDone id) w1 in
             let '(w2, o2) := absent_source id lag (S (S k)) fuel w1' in
             (w2, o1 ++ o2)
         | _ => (w1, [])
         end).
      rewrite C1. rewrite (step_sleep_done _ _ _ _ _ C1).
      set (t2 := _ + lag (S k)). set (w2 := with_cycles _ _).
      pose proof (Hlag (S k)) as L1.
      unfold IDE_CONNECTION_MIN_INTERVAL_MS in *.
      destruct (IH (S (S k)) fuel w2 endT t2) as (o & t & E & Ht & Hc & Hf & Hs).
      * done.
      * apply (lookup_insert_same _ _ _ _ C1).
      * simpl. lia.
      * subst t2. lia.
      * lia.
      * rewrite E. subst w2 w1. simpl. rewrite !list_insert_insert_eq.
        eexists (_ :: _ :: _ :: _ :: o), t. split; [reflexivity|].
        repeat split; try done. unfold spawns in *. simpl. lia.
    + rewrite (step_process_retry _ _ _ _ _ C D) by done.
      set (w1 := with_cycles _ _).
      unfold IDE_CONNECTION_MIN_INTERVAL_MS in *.
      destruct (IH (S k) fuel w1 endT (now w + lag k))
        as (o & t & E & Ht & Hc & Hf & Hs).
      * done.
      * apply (lookup_insert_same _ _ _ _ C).
      * simpl. lia.
      * lia.
      * lia.
      * rewrite E. subst w1. simpl. rewrite !list_insert_insert_eq.
        eexists (_ :: _ :: o), t. split; [reflexivity|].
        repeat split; try done. unfold spawns in *. simpl. lia.
Qed.

(** ** Reachable states *)

Lemma reachable_WInv tr : WInv (run tr init).1.
Proof.
  destruct (run tr init) as [w o] eqn:E. simpl.
  eapply WInv_run; [apply WInv_init | done].
Qed.

Lemma reachable_HInv tr : HInv (run tr init).1 (run tr init).2.
Proof.
  destruct (run tr init) as [w o] eqn:E. simpl.
  change o with ([] ++ o).
  eapply HInv_run; [apply WInv_init | apply HInv_init | done].
Qed.

Lemma run_app tr1 tr2 w :
  run (tr1 ++ tr2) w
  = let '(w1, o1) := run tr1 w in
    let '(w2, o2) := run tr2 w1 in (w2, o1 ++ o2).
Proof.
  revert w. induction tr1 as [|[t e] tr1 IH]; intros w; simpl.
  - by destruct (run tr2 w).
  - destruct (step t e w) as [w1 o1]. rewrite IH.
    destruct (run tr1 w1) as [w2 o2]. destruct (run tr2 w2) as [w3 o3].
    by rewrite app_assoc.
Qed.

(** ** The streak counter *)

Lemma step_count_changes t e w w' o :
  WInv w -> step t e w = (w', o) ->
  _consecutiveUnhealthyConnections (watcher w')
    <> _consecutiveUnhealthyConnections (watcher w) ->
  exists c ob l,
    e = ETerminate c /\ heap w !! c = Some ob /\ conn_ended ob = false /\
    conn_listener ob = Some l.
Proof.
  intros [I1 I2 I3 I4 I5 I6 I7] H. split_world w. simpl in *.
  destruct e; crunch; simplify_eq; try done.
  all: use_heap_inv; listen_facts; rewrite_listening; try congruence.
  all: try match goal with
       | I : forall c o, _ -> _ -> _ /\ true = false, L : listening _ = true |- _ =>
           destruct (I _ _ ltac:(eassumption) L); discriminate
       end.
  all: intros _; eauto 10.
Qed.

Lemma run_count_frame tr : forall w w' o,
  WInv w -> run tr w = (w', o) ->
  forallb (fun te => negb (is_terminate te.2)) tr = true ->
  _consecutiveUnhealthyConnections (watcher w')
  = _consecutiveUnhealthyConnections (watcher w).
Proof.
  induction tr as [|[t e] tr IH]; intros w w' o I H F; simpl in *.
  - by simplify_eq.
  - destruct (step t e w) as [w1 o1] eqn:E1.
    destruct (run tr w1) as [w2 o2] eqn:E2. simplify_eq.
    apply andb_prop in F as [F1 F2].
    rewrite (IH _ _ _ (WInv_step _ _ _ _ _ I E1) E2 F2).
    destruct (decide (_consecutiveUnhealthyConnections (watcher w1)
                      = _consecutiveUnhealthyConnections (watcher w)))
      as [|N]; [done|].
    destruct (step_count_changes _ _ _ _ _ I E1 N) as (c & ? & ? & -> & _).
    discriminate.
Qed.

Lemma teardowns_app a b : teardowns (a ++ b) = (teardowns a + teardowns b)%nat.
Proof. unfold teardowns. by rewrite List.filter_app, length_app. Qed.

Lemma step_dispose_first t w :
  WInv w -> _isDisposed (watcher w) = false ->
  step t EDispose w
  = (mkWorld (set_isDisposed true (watcher w)) t
       match _currentIDEConnection (watcher w) with
       | Some c =>
           match heap w !! c with
           | Some ob => <[c := mkConnection (conn_proc ob) true None]> (heap w)
           | None => heap w
           end
       | None => heap w
       end
       (cycles w),
     teardown (watcher w)).
Proof.
  intros [I1 I2 I3 I4 I5 I6 I7] D. split_world w. unfold teardown. simpl in *.
  subst. crunch; simplify_eq; try done.
  all: use_heap_inv; listen_facts; rewrite_listening; try congruence.
  all: try (specialize (I7 _ eq_refl);
            match goal with H : _ !! _ = None |- _ =>
              apply lookup_ge_None in H; lia end).
Qed.

Lemma step_no_teardown t e w w' o :
  step t e w = (w', o) ->
  (_isDisposed (watcher w) = true -> _isDisposed (watcher w') = true) /\
  (e <> EDispose \/ _isDisposed (watcher w) = true -> teardowns o = 0%nat) /\
  (forall s, In (ASubDispose s) o ->
     e = EDispose /\ _isDisposed (watcher w) = false /\
     _currentIDEConnectionSubscription (watcher w) = Some s).
Proof.
  intros H. split_world w.
  destruct e; crunch; simplify_eq; simpl.
  all: try match goal with H : negb ?b = _ |- _ => destruct b; try discriminate end.
  all: split; [done | split].
  all: try (intros [?|?]; done).
  all: intros ? Hin; simpl in Hin; intuition (simplify_eq; done).
Qed.

Lemma run_no_teardown tr : forall w w' o,
  _isDisposed (watcher w) = true -> run tr w = (w', o) ->
  _isDisposed (watcher w') = true /\ teardowns o = 0%nat.
Proof.
  induction tr as [|[t e] tr IH]; intros w w' o D H; simpl in H.
  - by simplify_eq.
  - destruct (step t e w) as [w1 o1] eqn:E1.
    destruct (run tr w1) as [w2 o2] eqn:E2. simplify_eq.
    destruct (step_no_teardown _ _ _ _ _ E1) as (D1 & T1 & _).
    destruct (IH _ _ _ (D1 D) E2) as (D2 & T2).
    rewrite teardowns_app, T1, T2; auto.
Qed.

(** ** The current connection *)

Lemma step_current_connection t e w w' o c :
  step t e w = (w', o) ->
  _currentIDEConnection (watcher w) = Some c ->
  _currentIDEConnection (watcher w') = Some c \/
  exists id p endTimeMS attemptStartTime,
    e = EProcess id (Some p) /\
    cycles w !! id = Some (AwaitProcess endTimeMS attemptStartTime) /\
    _currentIDEConnection (watcher w') = Some (length (heap w)) /\
    _currentIDEConnectionSubscription (watcher w')
      = Some (SubOf (length (heap w))) /\
    o = [AFactory p (length (heap w)); ACallback (Some (length (heap w)));
         AResolve id].
Proof.
  intros H C. split_world w. simpl in *. subst.
  destruct e; crunch; simplify_eq; simpl; eauto 12.
Qed.

(** C1: when the current connection ends with an alive-duration strictly
    below the health threshold, [_consecutiveUnhealthyConnections] is
    incremented; when it thereby reaches [MAX_UNHEALTHY_CONNECTIONS] the
    watcher gives up, and no acquisition cycle is ever started again;
    below the limit a new cycle is started. *)
Theorem unhealthy_termination_counts tr t c ob l :
  let w := (run tr init).1 in
  heap w !! c = Some ob -> conn_listener ob = Some l ->
  t - connectionStartTime l < IDE_CONNECTION_HEALTHY_THRESHOLD_MS ->
  let '(w', acts) := step t (ETerminate c) w in
  _consecutiveUnhealthyConnections (watcher w')
    = _consecutiveUnhealthyConnections (watcher w) + 1 /\
  (MAX_UNHEALTHY_CONNECTIONS <= _consecutiveUnhealthyConnections (watcher w') ->
     acts = [ACallback None; ALog LogGiveUpUnhealthy] /\
     cycles w' = cycles w /\
     forall tr', spawns (run tr' w').2 = 0%nat) /\
  (_consecutiveUnhealthyConnections (watcher w') < MAX_UNHEALTHY_CONNECTIONS ->
     acts = [ACallback None; ALog LogAttempting; ASpawn (length (cycles w))] /\
     cycles w'
       = cycles w ++ [AwaitProcess (t + IDE_CONNECTION_MAX_WAIT_MS) t]).
Proof.
  intros w Hc Hl Ht.
  pose proof (reachable_WInv tr) as I. fold w in I.
  assert (listening ob = true) as L by (unfold listening; by rewrite Hl).
  pose proof (inv_ended _ I _ _ Hc) as E. rewrite L in E. simpl in E.
  destruct (Z.le_gt_cases MAX_UNHEALTHY_CONNECTIONS
              (_consecutiveUnhealthyConnections (watcher w) + 1)) as [G|G].
  - rewrite (step_terminate_give_up _ _ _ _ _ Hc E Hl Ht G). simpl.
    split; [done|]. split; [|lia]. intros _. repeat split.
    intros tr'.
    destruct (run tr' _) as [w2 o2] eqn:R.
    assert (quiescent (mkWorld
              (set_consecutiveUnhealthyConnections
                 (_consecutiveUnhealthyConnections (watcher w) + 1) (watcher w))
              t (<[c:=mkConnection (conn_proc ob) true None]> (heap w))
              (cycles w))) as Q.
    { pose proof (inv_one _ I) as One.
      pose proof (count_if_lookup listening _ _ _ Hc L) as P.
      pose proof (count_if_insert listening _ _ _
                    (mkConnection (conn_proc ob) true None) Hc) as X.
      rewrite L in X. simpl in X.
      unfold quiescent, npending, nlistening in *; simpl.
      split; [|lia].
      destruct (_isStarted (watcher w)) eqn:S; [done|].
      destruct (inv_unstarted _ I S) as (_ & Y & _). rewrite Y in Hc. done. }
    by destruct (quiescent_run _ _ _ _ Q R) as (_ & ? & _).
  - rewrite (step_terminate_unhealthy _ _ _ _ _ Hc E Hl Ht G). simpl.
    split; [done|]. split; [lia|]. done.
Qed.

Lemma unhealthy_termination_counts_witness :
  let w := (run nineteen_crashes init).1 in
  (heap w !! 19%nat = Some (mkConnection 19%nat false (Some (mkListener 19))) /\
   20 - 19 < IDE_CONNECTION_HEALTHY_THRESHOLD_MS) /\
  let '(w', acts) := step 20 (ETerminate 19%nat) w in
  _consecutiveUnhealthyConnections (watcher w')
    = _consecutiveUnhealthyConnections (watcher w) + 1 /\
  (MAX_UNHEALTHY_CONNECTIONS <= _consecutiveUnhealthyConnections (watcher w') ->
     acts = [ACallback None; ALog LogGiveUpUnhealthy] /\
     cycles w' = cycles w /\
     forall tr', spawns (run tr' w').2 = 0%nat) /\
  (_consecutiveUnhealthyConnections (watcher w') < MAX_UNHEALTHY_CONNECTIONS ->
     acts = [ACallback None; ALog LogAttempting; ASpawn (length (cycles w))] /\
     cycles w'
       = cycles w ++ [AwaitProcess (20 + IDE_CONNECTION_MAX_WAIT_MS) 20]).
Proof.
  split.
  - split; [vm_compute; reflexivity | reflexivity].
  - apply (unhealthy_termination_counts nineteen_crashes 20 19%nat
             (mkConnection 19%nat false (Some (mkListener 19))) (mkListener 19)).
    + vm_compute; reflexivity.
    + reflexivity.
    + reflexivity.
Defined.

Example twentieth_crash_gives_up :
  let '(w, o) := run (nineteen_crashes ++ [(20, ETerminate 19%nat)]) init in
  _consecutiveUnhealthyConnections (watcher w) = 20 /\
  npending w = 0%nat /\ nlistening w = 0%nat /\
  spawns o = 20%nat /\ length (callbacks o) = 40%nat.
Proof. vm_compute. repeat split. Qed.

(** C2: a retry iteration of a watcher that is not disposed, whose
    request was answered by an absence at a time [t] not beyond the
    deadline, sleeps exactly [max 0 (minimum interval - elapsed)], where
    [elapsed = t - attemptStartTime]: when that is positive the next
    request is made when the sleep is over, otherwise at once. *)
Theorem retry_waits_the_remainder t id w endTimeMS attemptStartTime :
  cycles w !! id = Some (AwaitProcess endTimeMS attemptStartTime) ->
  _isDisposed (watcher w) = false ->
  t <= endTimeMS ->
  let elapsed := t - attemptStartTime in
  let wait := Z.max 0 (IDE_CONNECTION_MIN_INTERVAL_MS - elapsed) in
  let '(w', o) := step t (EProcess id None) w in
  slept o = wait /\
  (0 < wait ->
     o = [ALog LogRetrying; ALog (LogWaiting wait); ASleep id wait] /\
     cycles w' = <[id := AwaitSleep endTimeMS (t + wait)]> (cycles w) /\
     forall t', (step t' (ESleepDone id) w').2 = [ASpawn id]) /\
  (wait = 0 ->
     o = [ALog LogRetrying; ASpawn id] /\
     cycles w' = <[id := AwaitProcess endTimeMS t]> (cycles w)).
Proof.
  intros C D T elapsed wait. subst elapsed wait.
  destruct (Z.lt_ge_cases 0
              (IDE_CONNECTION_MIN_INTERVAL_MS - (t - attemptStartTime)))
    as [W|W].
  - rewrite (step_process_sleep _ _ _ _ _ C D T W).
    rewrite Z.max_r by lia. simpl. split; [lia|]. split; [|lia].
    intros _. repeat split. intros t'.
    erewrite step_sleep_done; [done|].
    apply (lookup_insert_same _ _ _ _ C).
  - rewrite (step_process_retry _ _ _ _ _ C D T W).
    rewrite Z.max_l by lia. simpl. split; [done|]. split; [lia|]. done.
Qed.

Lemma retry_waits_the_remainder_witness :
  let w := (step 0 EStart init).1 in
  (cycles w !! 0%nat = Some (AwaitProcess 1200000 0) /\
   _isDisposed (watcher w) = false /\ 200 <= 1200000) /\
  let elapsed := 200 - 0 in
  let wait := Z.max 0 (IDE_CONNECTION_MIN_INTERVAL_MS - elapsed) in
  let '(w', o) := step 200 (EProcess 0%nat None) w in
  slept o = wait /\
  (0 < wait ->
     o = [ALog LogRetrying; ALog (LogWaiting wait); ASleep 0%nat wait] /\
     cycles w' = <[0%nat := AwaitSleep 1200000 (200 + wait)]> (cycles w) /\
     forall t', (step t' (ESleepDone 0%nat) w').2 = [ASpawn 0%nat]) /\
  (wait = 0 ->
     o = [ALog LogRetrying; ASpawn 0%nat] /\
     cycles w' = <[0%nat := AwaitProcess 1200000 200]> (cycles w)).
Proof.
  split.
  - repeat split. lia.
  - apply (retry_waits_the_remainder 200 0%nat (step 0 EStart init).1
             1200000 0); [reflexivity | reflexivity | lia].
Defined.

Example retry_after_a_fast_attempt :
  (step 200 (EProcess 0%nat None) (step 0 EStart init).1).2
  = [ALog LogRetrying; ALog (LogWaiting 800); ASleep 0%nat 800].
Proof. reflexivity. Qed.

Example retry_after_a_slow_attempt :
  (step 1500 (EProcess 0%nat None) (step 0 EStart init).1).2
  = [ALog LogRetrying; ASpawn 0%nat].
Proof. reflexivity. Qed.

(** C3: after [start()] at time [t0], if every request to the process
    source is answered by an absence (after any delays), the acquisition
    cycle ends with the first answer that comes after the deadline
    [t0 + IDE_CONNECTION_MAX_WAIT_MS], which was computed once: the
    promise returned by [start()] resolves, the callback has not been
    invoked, and whatever happens afterwards neither a new attempt nor a
    callback invocation occurs. *)
Theorem absent_source_times_out t0 lag :
  (forall i, 0 <= lag i) ->
  let '(w0, o0) := step t0 EStart init in
  let '(w, o) := absent_source 0 lag 0 2403 w0 in
  In (AStartReturns (PromiseOf 0%nat)) o0 /\
  cycles w0 = [AwaitProcess (t0 + IDE_CONNECTION_MAX_WAIT_MS) t0] /\
  cycles w = [Returned] /\
  (exists o', o = o' ++ [ALog LogGiveUpStart; AResolve 0%nat]) /\
  t0 + IDE_CONNECTION_MAX_WAIT_MS < now w /\
  callbacks (o0 ++ o) = [] /\
  (spawns (o0 ++ o) <= 1202)%nat /\
  forall tr, spawns (run tr w).2 = 0%nat /\ callbacks (run tr w).2 = [].
Proof.
  intros Hlag. rewrite (step_start_first t0 init eq_refl).
  set (w0 := with_cycles _ _).
  destruct (absent_source_gives_up 0%nat lag Hlag 1201 0%nat 2403 w0
              (t0 + IDE_CONNECTION_MAX_WAIT_MS) t0)
    as (o & t & E & Ht & Hc & Hf & Hs).
  { done. }
  { done. }
  { simpl. lia. }
  { unfold IDE_CONNECTION_MAX_WAIT_MS, IDE_CONNECTION_MIN_INTERVAL_MS. lia. }
  { lia. }
  rewrite E. simpl. repeat split; eauto.
  - rewrite callbacks_app. simpl. by rewrite Hc.
  - change (spawns (ASpawn 0%nat :: AStartReturns (PromiseOf 0%nat)
                    :: o ++ [ALog LogGiveUpStart; AResolve 0%nat])
            <= 1202)%nat.
    change (ASpawn 0%nat :: AStartReturns (PromiseOf 0%nat)
            :: o ++ [ALog LogGiveUpStart; AResolve 0%nat])
      with ([ASpawn 0%nat; AStartReturns (PromiseOf 0%nat)]
            ++ o ++ [ALog LogGiveUpStart; AResolve 0%nat]).
    rewrite !spawns_app. unfold spawns at 1 3. simpl. lia.
  - destruct (run tr _) as [w2 o2] eqn:R.
    eapply quiescent_run in R as (_ & ? & _); [done|].
    by unfold quiescent, npending, nlistening.
  - destruct (run tr _) as [w2 o2] eqn:R.
    eapply quiescent_run in R as (_ & _ & ?); [done|].
    by unfold quiescent, npending, nlistening.
Qed.

Lemma absent_source_times_out_witness :
  (forall i : nat, 0 <= (fun _ => 0) i) /\
  let '(w0, o0) := step 0 EStart init in
  let '(w, o) := absent_source 0 (fun _ => 0) 0 2403 w0 in
  In (AStartReturns (PromiseOf 0%nat)) o0 /\
  cycles w0 = [AwaitProcess (0 + IDE_CONNECTION_MAX_WAIT_MS) 0] /\
  cycles w = [Returned] /\
  (exists o', o = o' ++ [ALog LogGiveUpStart; AResolve 0%nat]) /\
  0 + IDE_CONNECTION_MAX_WAIT_MS < now w /\
  callbacks (o0 ++ o) = [] /\
  (spawns (o0 ++ o) <= 1202)%nat /\
  forall tr, spawns (run tr w).2 = 0%nat /\ callbacks (run tr w).2 = [].
Proof.
  split.
  - intros i. simpl. lia.
  - apply (absent_source_times_out 0 (fun _ => 0)). intros i. simpl. lia.
Defined.

Example absent_source_attempts :
  let '(w, o) := absent_source 0 (fun _ => 0) 0 2403 (step 0 EStart init).1 in
  now w = 1201000 /\ spawns o = 1201%nat /\ slept o = 1201000 /\
  cycles w = [Returned].
Proof. vm_compute. repeat split. Qed.

(** C4: [_consecutiveUnhealthyConnections] changes only when the
    connection that is listened to ends: by one up if it lived strictly
    less than the health threshold, to 0 if it lived that long or
    longer.  Hence when a connection ends healthy and, with no other
    connection ending in between, a later one ends unhealthy, the streak
    is exactly 1 whatever it was before. *)
Theorem streak_counter tr t e :
  let w := (run tr init).1 in
  let w' := (step t e w).1 in
  (_consecutiveUnhealthyConnections (watcher w')
     <> _consecutiveUnhealthyConnections (watcher w) ->
   exists c ob l,
     e = ETerminate c /\ heap w !! c = Some ob /\ conn_listener ob = Some l /\
     if t - connectionStartTime l <? IDE_CONNECTION_HEALTHY_THRESHOLD_MS
     then _consecutiveUnhealthyConnections (watcher w')
          = _consecutiveUnhealthyConnections (watcher w) + 1
     else _consecutiveUnhealthyConnections (watcher w') = 0) /\
  (forall c ob l,
     e = ETerminate c -> heap w !! c = Some ob -> conn_listener ob = Some l ->
     IDE_CONNECTION_HEALTHY_THRESHOLD_MS <= t - connectionStartTime l ->
     _consecutiveUnhealthyConnections (watcher w') = 0 /\
     forall tr1 t1 c1 ob1 l1,
       forallb (fun te => negb (is_terminate te.2)) tr1 = true ->
       let w1 := (run tr1 w').1 in
       heap w1 !! c1 = Some ob1 -> conn_listener ob1 = Some l1 ->
       t1 - connectionStartTime l1 < IDE_CONNECTION_HEALTHY_THRESHOLD_MS ->
       _consecutiveUnhealthyConnections
         (watcher (step t1 (ETerminate c1) w1).1) = 1).
Proof.
  intros w w'. pose proof (reachable_WInv tr) as I. fold w in I.
  assert (forall c ob l, heap w !! c = Some ob -> conn_listener ob = Some l ->
            conn_ended ob = false) as Live.
  { intros c ob l Hc Hl. rewrite (inv_ended _ I _ _ Hc).
    unfold listening. by rewrite Hl. }
  split.
  - intros N. subst w'. destruct (step t e w) as [w1 o1] eqn:E1. simpl in *.
    destruct (step_count_changes _ _ _ _ _ I E1 N) as (c & ob & l & -> & Hc & He & Hl).
    exists c, ob, l. repeat split; try done.
    destruct (Z.ltb_spec (t - connectionStartTime l)
                IDE_CONNECTION_HEALTHY_THRESHOLD_MS) as [U|U].
    + destruct (Z.le_gt_cases MAX_UNHEALTHY_CONNECTIONS
                  (_consecutiveUnhealthyConnections (watcher w) + 1)) as [G|G].
      * rewrite (step_terminate_give_up _ _ _ _ _ Hc He Hl U G) in E1.
        by simplify_eq.
      * rewrite (step_terminate_unhealthy _ _ _ _ _ Hc He Hl U G) in E1.
        by simplify_eq.
    + rewrite (step_terminate_healthy _ _ _ _ _ Hc He Hl U) in E1.
      by simplify_eq.
  - intros c ob l -> Hc Hl U. subst w'.
    pose proof (step_terminate_healthy _ _ _ _ _ Hc (Live _ _ _ Hc Hl) Hl U) as E1.
    pose proof (WInv_step _ _ _ _ _ I E1) as I1.
    rewrite E1. simpl. split; [done|].
    intros tr1 t1 c1 ob1 l1 F Hc1 Hl1 U1.
    destruct (run tr1 _) as [w2 o2] eqn:R. simpl in *.
    pose proof (WInv_run _ _ _ _ I1 R) as I2.
    pose proof (run_count_frame _ _ _ _ I1 R F) as C2. simpl in C2.
    assert (conn_ended ob1 = false) as He1.
    { rewrite (inv_ended _ I2 _ _ Hc1). unfold listening. by rewrite Hl1. }
    assert (_consecutiveUnhealthyConnections (watcher w2) + 1
            < MAX_UNHEALTHY_CONNECTIONS) as G
      by (rewrite C2; unfold MAX_UNHEALTHY_CONNECTIONS; lia).
    rewrite (step_terminate_unhealthy _ _ _ _ _ Hc1 He1 Hl1 U1 G). simpl.
    rewrite C2. done.
Qed.

Lemma streak_counter_witness :
  let w := (run three_crashes init).1 in
  let w' := (step 20000 (ETerminate 3%nat) w).1 in
  let w1 := (run [(20500, EProcess 4%nat (Some 4%nat))] w').1 in
  _consecutiveUnhealthyConnections (watcher w) = 3 /\
  _consecutiveUnhealthyConnections (watcher w') = 0 /\
  _consecutiveUnhealthyConnections
    (watcher (step 20501 (ETerminate 4%nat) w1).1) = 1.
Proof.
  split; [vm_compute; reflexivity|].
  destruct (streak_counter three_crashes 20000 (ETerminate 3%nat)) as (_ & H).
  destruct (H 3%nat (mkConnection 3%nat false (Some (mkListener 3)))
              (mkListener 3) eq_refl
              ltac:(vm_compute; reflexivity) eq_refl
              ltac:(vm_compute; discriminate)) as (H0 & H1).
  split; [exact H0|].
  apply (H1 [(20500, EProcess 4%nat (Some 4%nat))] 20501 4%nat
           (mkConnection 4%nat false (Some (mkListener 20500)))
           (mkListener 20500)).
  - reflexivity.
  - vm_compute; reflexivity.
  - reflexivity.
  - reflexivity.
Defined.

(** C5, as the specification states it, fails: a watcher disposed while
    its loop is asleep starts one more attempt when the sleep is over,
    because [_isDisposed] is read only at line 96; and so does a first
    [start()] that comes after [dispose()]. *)
Lemma attempt_after_dispose :
  let w := (run disposed_asleep init).1 in
  _isDisposed (watcher w) = true /\
  (step 1000 (ESleepDone 0%nat) w).2 = [ASpawn 0%nat] /\
  (step 1000 (EStart) (step 0 EDispose init).1).2
  = [ALog LogAttempting; ASpawn 0%nat; AStartReturns (PromiseOf 0%nat)].
Proof. vm_compute. repeat split. Qed.

(** C5, amended: once [_isDisposed] is true the callback and the
    connection factory are never invoked again and at most one more
    attempt is started (by a loop that was asleep, or by a first
    [start()]); a handle that arrives after disposal is killed and the
    cycle returns without the callback or the factory. *)
Theorem disposed_watcher_is_silent tr tr' :
  let w := (run tr init).1 in
  _isDisposed (watcher w) = true ->
  let o := (run tr' w).2 in
  callbacks o = [] /\ factories o = 0%nat /\ (spawns o <= 1)%nat /\
  forall t id p endTimeMS attemptStartTime,
    cycles w !! id = Some (AwaitProcess endTimeMS attemptStartTime) ->
    step t (EProcess id (Some p)) w
    = (with_cycles (fun l => <[id := Returned]> l) (with_now t w),
       [AKill p; AResolve id]).
Proof.
  intros w D o. pose proof (reachable_WInv tr) as I. fold w in I.
  subst o. destruct (run tr' w) as [w' o] eqn:R. simpl.
  destruct (disposed_run _ _ _ _ I D R) as (_ & C & F & S).
  pose proof (credit_le_one _ I).
  repeat split; try done; [lia|].
  intros t id p endT st Hc.
  by rewrite (step_process_disposed _ _ (Some p) _ _ _ Hc D).
Qed.

Lemma disposed_watcher_is_silent_witness :
  let w := (run disposed_asleep init).1 in
  _isDisposed (watcher w) = true /\
  let o := (run [(1000, ESleepDone 0%nat); (1100, EProcess 0%nat (Some 5%nat))]
              w).2 in
  callbacks o = [] /\ factories o = 0%nat /\ (spawns o <= 1)%nat /\
  forall t id p endTimeMS attemptStartTime,
    cycles w !! id = Some (AwaitProcess endTimeMS attemptStartTime) ->
    step t (EProcess id (Some p)) w
    = (with_cycles (fun l => <[id := Returned]> l) (with_now t w),
       [AKill p; AResolve id]).
Proof.
  split; [reflexivity|].
  apply (disposed_watcher_is_silent disposed_asleep
           [(1000, ESleepDone 0%nat); (1100, EProcess 0%nat (Some 5%nat))]).
  reflexivity.
Defined.

Example handle_after_dispose_is_killed :
  (run (disposed_asleep
        ++ [(1000, ESleepDone 0%nat); (1100, EProcess 0%nat (Some 5%nat))])
     init).2
  = [ALog LogAttempting; ASpawn 0%nat; AStartReturns (PromiseOf 0%nat);
     ALog LogRetrying; ALog (LogWaiting 800); ASleep 0%nat 800;
     ASpawn 0%nat; AKill 5%nat; AResolve 0%nat].
Proof. vm_compute. reflexivity. Qed.

(** C6: the callback receives a connection only in the step in which a
    suspended invocation obtained a handle, and over any run the values
    it receives are in turn a connection, an absence, a connection, and
    so on: never two connections in a row. *)
Theorem callback_alternates tr :
  alternates true (callbacks (run tr init).2) = true /\
  forall t e c,
    In (ACallback (Some c)) (step t e (run tr init).1).2 ->
    exists id p endTimeMS attemptStartTime,
      e = EProcess id (Some p) /\
      cycles (run tr init).1 !! id
        = Some (AwaitProcess endTimeMS attemptStartTime) /\
      (step t e (run tr init).1).2
        = [AFactory p c; ACallback (Some c); AResolve id].
Proof.
  split.
  - apply (hinv_alt _ _ (reachable_HInv tr)).
  - intros t e c Hin.
    destruct (step t e _) as [w' o] eqn:E. simpl in *.
    by eapply step_callback_connection.
Qed.

Lemma callback_alternates_witness :
  alternates true (callbacks (run nineteen_crashes init).2) = true /\
  exists id p endTimeMS attemptStartTime,
    EProcess 0%nat (Some 7%nat) = EProcess id (Some p) /\
    cycles (run [(0, EStart)] init).1 !! id
      = Some (AwaitProcess endTimeMS attemptStartTime) /\
    (step 5 (EProcess 0%nat (Some 7%nat)) (run [(0, EStart)] init).1).2
      = [AFactory p 0%nat; ACallback (Some 0%nat); AResolve id].
Proof.
  split.
  - apply (callback_alternates nineteen_crashes).
  - apply (callback_alternates [(0, EStart)]).
    vm_compute. auto.
Defined.

(** C7: the first [start()] marks the watcher started and begins the
    first acquisition cycle, whose promise it returns; every later
    [start()], whatever happened in between, returns a resolved promise
    and changes nothing: no second cycle is started. *)
Theorem start_is_idempotent t w tr t' :
  _isStarted (watcher w) = false ->
  let '(w1, o1) := step t EStart w in
  _isStarted (watcher w1) = true /\
  cycles w1 = cycles w ++ [AwaitProcess (t + IDE_CONNECTION_MAX_WAIT_MS) t] /\
  o1 = [ALog LogAttempting; ASpawn (length (cycles w));
        AStartReturns (PromiseOf (length (cycles w)))] /\
  let w2 := (run tr w1).1 in
  step t' EStart w2 = (with_now t' w2, [AStartReturns PromiseResolved]).
Proof.
  intros S. rewrite (step_start_first _ _ S). simpl. repeat split.
  apply step_start_again.
  set (w1 := with_cycles _ _).
  assert (_isStarted (watcher w1) = true) as S1 by done.
  clearbody w1. revert w1 S1.
  induction tr as [|[t0 e] tr IH]; intros w1 S1; simpl; [done|].
  destruct (step t0 e w1) as [w2 o2] eqn:E.
  specialize (IH w2). destruct (run tr w2) as [w3 o3]. simpl in *.
  apply IH. clear IH. split_world w1. simpl in *. subst.
  destruct e; crunch; simplify_eq; done.
Qed.

Lemma start_is_idempotent_witness :
  _isStarted (watcher init) = false /\
  let '(w1, o1) := step 0 EStart init in
  _isStarted (watcher w1) = true /\
  cycles w1 = cycles init ++ [AwaitProcess (0 + IDE_CONNECTION_MAX_WAIT_MS) 0] /\
  o1 = [ALog LogAttempting; ASpawn (length (cycles init));
        AStartReturns (PromiseOf (length (cycles init)))] /\
  let w2 := (run [(200, EProcess 0%nat None)] w1).1 in
  step 300 EStart w2 = (with_now 300 w2, [AStartReturns PromiseResolved]).
Proof.
  split; [reflexivity|].
  apply (start_is_idempotent 0 init [(200, EProcess 0%nat None)] 300).
  reflexivity.
Defined.

(** C8: the first [dispose()] marks the watcher disposed, releases the
    subscription if there is one and disposes the current connection if
    there is one, and nothing else; every later [dispose()] changes
    nothing and does nothing, so teardown is executed exactly once. *)
Theorem dispose_is_idempotent tr t tr' t' :
  let w := (run tr init).1 in
  _isDisposed (watcher w) = false ->
  let '(w1, o1) := step t EDispose w in
  _isDisposed (watcher w1) = true /\
  o1 = teardown (watcher w) /\
  step t' EDispose w1 = (with_now t' w1, []) /\
  let '(w2, o2) := run tr' w1 in
  teardowns o2 = 0%nat /\
  step t' EDispose w2 = (with_now t' w2, []).
Proof.
  intros w D. pose proof (reachable_WInv tr) as I. fold w in I.
  rewrite (step_dispose_first _ _ I D).
  set (w1 := mkWorld _ _ _ _).
  assert (_isDisposed (watcher w1) = true) as D1 by done.
  split; [done|]. split; [done|]. split.
  - by apply step_dispose_again.
  - destruct (run tr' w1) as [w2 o2] eqn:R.
    destruct (run_no_teardown _ _ _ _ D1 R) as (D2 & T2).
    split; [done|]. by apply step_dispose_again.
Qed.

Lemma dispose_is_idempotent_witness :
  let w := (run connected init).1 in
  _isDisposed (watcher w) = false /\
  let '(w1, o1) := step 50 EDispose w in
  _isDisposed (watcher w1) = true /\
  o1 = teardown (watcher w) /\
  step 60 EDispose w1 = (with_now 60 w1, []) /\
  let '(w2, o2) := run [(55, ETerminate 0%nat)] w1 in
  teardowns o2 = 0%nat /\
  step 60 EDispose w2 = (with_now 60 w2, []).
Proof.
  split; [reflexivity|].
  apply (dispose_is_idempotent connected 50 [(55, ETerminate 0%nat)] 60).
  reflexivity.
Defined.

Example dispose_while_connected :
  (run (connected ++ [(50, EDispose); (55, ETerminate 0%nat); (60, EDispose)])
     init)
  = (mkWorld (mkWatcher (Some 0%nat) (Some (SubOf 0%nat)) 0 true true) 60
       [mkConnection 7%nat true None] [Returned],
     [ALog LogAttempting; ASpawn 0%nat; AStartReturns (PromiseOf 0%nat);
      AFactory 7%nat 0%nat; ACallback (Some 0%nat); AResolve 0%nat;
      ASubDispose (SubOf 0%nat); AConnDispose 0%nat]).
Proof. vm_compute. reflexivity. Qed.

(** C9, as the specification states it, fails: when a new connection
    replaces the current one, line 130 overwrites
    [_currentIDEConnectionSubscription] and the previous subscription is
    never disposed. *)
Lemma subscription_not_released_on_replacement :
  let '(w, o) := run reconnect init in
  let '(w', o') := step 20100 (EProcess 1%nat (Some 8%nat)) w in
  _currentIDEConnection (watcher w) = Some 0%nat /\
  _currentIDEConnectionSubscription (watcher w) = Some (SubOf 0%nat) /\
  _currentIDEConnection (watcher w') = Some 1%nat /\
  _currentIDEConnectionSubscription (watcher w') = Some (SubOf 1%nat) /\
  ~ In (ASubDispose (SubOf 0%nat)) (o ++ o').
Proof.
  vm_compute. repeat split. intros H.
  repeat (destruct H as [H|H]; [discriminate H|]). exact H.
Qed.

(** C9, amended: the subscription is released by [dispose()], and only
    there: the first [dispose()] releases the subscription it holds, no
    other step releases one; when a new connection replaces the current
    one the field is overwritten with the new subscription, and the
    previous subscription is that of a connection that has ended, whose
    listener is gone. *)
Theorem subscription_released_by_dispose tr t e :
  let w := (run tr init).1 in
  let '(w', o) := step t e w in
  (forall s, e = EDispose -> _isDisposed (watcher w) = false ->
     _currentIDEConnectionSubscription (watcher w) = Some s ->
     In (ASubDispose s) o) /\
  (forall s, In (ASubDispose s) o ->
     e = EDispose /\ _isDisposed (watcher w) = false /\
     _currentIDEConnectionSubscription (watcher w) = Some s) /\
  (forall c c', _currentIDEConnection (watcher w) = Some c ->
     _currentIDEConnection (watcher w') = Some c' -> c <> c' ->
     _currentIDEConnectionSubscription (watcher w) = Some (SubOf c) /\
     _currentIDEConnectionSubscription (watcher w') = Some (SubOf c') /\
     teardowns o = 0%nat /\
     exists ob, heap w !! c = Some ob /\ conn_ended ob = true /\
                conn_listener ob = None).
Proof.
  intros w. pose proof (reachable_WInv tr) as I. fold w in I.
  destruct (step t e w) as [w' o] eqn:E. split; [|split].
  - intros s -> D Hs. rewrite (step_dispose_first _ _ I D) in E.
    simplify_eq. unfold teardown. rewrite Hs. simpl. auto.
  - intros s Hin. destruct (step_no_teardown _ _ _ _ _ E) as (_ & _ & H).
    by apply H.
  - intros c c' Hc Hc' N.
    destruct (step_current_connection _ _ _ _ _ _ E Hc)
      as [X | (id & p & endT & st & -> & Hcy & X & Y & ->)]; [congruence|].
    rewrite (inv_sub _ I), Hc. simplify_eq. repeat split; try done.
    pose proof (inv_in_heap _ I _ Hc) as Lt.
    destruct (lookup_lt_is_Some_2 _ _ Lt) as [ob Hob].
    pose proof (inv_one _ I) as One.
    pose proof (count_if_lookup pending _ _ _ Hcy eq_refl) as P.
    unfold npending, nlistening in One.
    assert (count_if listening (heap w) = 0%nat) as Z0 by lia.
    pose proof (count_if_zero _ _ _ _ Z0 Hob) as L.
    exists ob. split; [done|]. split.
    + by rewrite (inv_ended _ I _ _ Hob), L.
    + unfold listening in L. by destruct (conn_listener ob).
Qed.

Lemma subscription_released_by_dispose_witness :
  (let w := (run connected init).1 in
   let '(w', o) := step 50 EDispose w in In (ASubDispose (SubOf 0%nat)) o) /\
  (let w := (run reconnect init).1 in
   let '(w', o) := step 20100 (EProcess 1%nat (Some 8%nat)) w in
   _currentIDEConnectionSubscription (watcher w') = Some (SubOf 1%nat) /\
   teardowns o = 0%nat /\
   exists ob, heap w !! 0%nat = Some ob /\ conn_ended ob = true /\
              conn_listener ob = None).
Proof.
  split.
  - pose proof (subscription_released_by_dispose connected 50 EDispose) as H.
    cbv zeta in H |- *.
    destruct (step 50 EDispose (run connected init).1) as [w' o].
    destruct H as (H & _). apply H; reflexivity.
  - pose proof (subscription_released_by_dispose reconnect 20100
                  (EProcess 1%nat (Some 8%nat))) as H.
    cbv zeta in H |- *.
    destruct (step 20100 (EProcess 1%nat (Some 8%nat)) (run reconnect init).1)
      as [w' o] eqn:E.
    destruct H as (_ & _ & H).
    assert (_currentIDEConnection (watcher w') = Some 1%nat) as C'
      by (vm_compute in E; by simplify_eq).
    destruct (H 0%nat 1%nat eq_refl C' ltac:(discriminate)) as (_ & ? & ? & ?).
    done.
Defined.

(** C10: once set, [_currentIDEConnection] is never cleared: a step
    leaves it as it is or replaces it by the connection made in that
    step from a handle just obtained.  In particular it still names a
    connection that has ended on its own, so that a later first
    [dispose()] calls the [dispose] method of that ended connection. *)
Theorem current_connection_is_never_cleared tr t e c :
  let w := (run tr init).1 in
  _currentIDEConnection (watcher w) = Some c ->
  let '(w', o) := step t e w in
  (_currentIDEConnection (watcher w') = Some c \/
   exists id p,
     e = EProcess id (Some p) /\
     _currentIDEConnection (watcher w') = Some (length (heap w)) /\
     In (AFactory p (length (heap w))) o) /\
  (forall c0, e = ETerminate c0 ->
     _currentIDEConnection (watcher w') = Some c) /\
  (e = EDispose -> _isDisposed (watcher w) = false ->
     In (AConnDispose c) o /\
     forall ob, heap w !! c = Some ob -> conn_ended ob = true ->
                heap w' = heap w).
Proof.
  intros w Hc. pose proof (reachable_WInv tr) as I. fold w in I.
  destruct (step t e w) as [w' o] eqn:E. split; [|split].
  - destruct (step_current_connection _ _ _ _ _ _ E Hc)
      as [X | (id & p & endT & st & -> & Hcy & X & Y & ->)]; [by left|].
    right. exists id, p. simpl. auto.
  - intros c0 ->.
    destruct (step_current_connection _ _ _ _ _ _ E Hc)
      as [X | (id & p & endT & st & ? & _)]; [done | discriminate].
  - intros -> D. rewrite (step_dispose_first _ _ I D) in E. simplify_eq.
    split.
    + unfold teardown. rewrite Hc. apply in_or_app. right. simpl. auto.
    + intros ob Hob He. simpl. rewrite Hc, Hob.
      apply list_insert_id. rewrite Hob. f_equal.
      pose proof (inv_ended _ I _ _ Hob) as X. rewrite He in X.
      destruct ob as [p en li]. simpl in *. subst.
      unfold listening in X. simpl in X. by destruct li.
Qed.

Lemma current_connection_is_never_cleared_witness :
  let w := (run given_up init).1 in
  (_currentIDEConnection (watcher w) = Some 19%nat /\
   _isDisposed (watcher w) = false /\
   heap w !! 19%nat = Some (mkConnection 19%nat true None)) /\
  let '(w', o) := step 30 EDispose w in
  In (AConnDispose 19%nat) o /\ heap w' = heap w.
Proof.
  split; [vm_compute; repeat split|].
  pose proof (current_connection_is_never_cleared given_up 30 EDispose 19%nat
                ltac:(vm_compute; reflexivity)) as H.
  cbv zeta in H |- *.
  destruct (step 30 EDispose (run given_up init).1) as [w' o].
  destruct H as (_ & _ & H).
  destruct (H eq_refl ltac:(vm_compute; reflexivity)) as (H1 & H2).
  split; [exact H1|].
  apply (H2 (mkConnection 19%nat true None)); [vm_compute|]; reflexivity.
Defined.

Example dispose_after_giving_up :
  (step 30 EDispose (run given_up init).1).2
  = [ASubDispose (SubOf 19%nat); AConnDispose 19%nat].
Proof. vm_compute. reflexivity. Qed.

(** * Further properties of the watcher *)

Lemma count_if_ext {A} (f g : A -> bool) l :
  (forall i x, l !! i = Some x -> f x = g x) -> count_if f l = count_if g l.
Proof.
  induction l as [|x l IH]; intros H; simpl; [done|].
  rewrite (H 0%nat x eq_refl), IH; [done|].
  intros i y Hy. apply (H (S i) y Hy).
Qed.

Lemma step_flags t e w w' o :
  step t e w = (w', o) ->
  (_isStarted (watcher w) = true -> _isStarted (watcher w') = true) /\
  (_isDisposed (watcher w) = true -> _isDisposed (watcher w') = true).
Proof.
  intros H. split_world w. destruct e; crunch; simplify_eq; simpl; auto.
Qed.

Lemma flags_are_monotonic_aux tr : forall w,
  _isDisposed (watcher w) = true ->
  _isDisposed (watcher (run tr w).1) = true.
Proof.
  induction tr as [|[t e] tr IH]; intros w D; simpl; [done|].
  destruct (step t e w) as [w1 o1] eqn:E1.
  destruct (step_flags _ _ _ _ _ E1) as [_ D1].
  specialize (IH w1 (D1 D)). by destruct (run tr w1).
Qed.

(** X1: [_isStarted] and [_isDisposed] only ever go from false to true:
    over any run from any state a flag that is set stays set. *)
Theorem flags_are_monotonic tr : forall w,
  (_isStarted (watcher w) = true ->
   _isStarted (watcher (run tr w).1) = true) /\
  (_isDisposed (watcher w) = true ->
   _isDisposed (watcher (run tr w).1) = true).
Proof.
  induction tr as [|[t e] tr IH]; intros w; simpl; [done|].
  destruct (step t e w) as [w1 o1] eqn:E1.
  destruct (step_flags _ _ _ _ _ E1) as [S1 D1].
  specialize (IH w1). destruct (run tr w1) as [w2 o2]. simpl in *.
  destruct IH as [S2 D2]. auto.
Qed.

Lemma flags_are_monotonic_witness :
  let w := (run disposed_asleep init).1 in
  (_isStarted (watcher w) = true /\ _isDisposed (watcher w) = true) /\
  let w' := (run [(1000, ESleepDone 0%nat); (1100, EProcess 0%nat None);
                  (1200, EStart); (1300, EDispose)] w).1 in
  _isStarted (watcher w') = true /\ _isDisposed (watcher w') = true.
Proof.
  split; [split; reflexivity|].
  destruct (flags_are_monotonic
              [(1000, ESleepDone 0%nat); (1100, EProcess 0%nat None);
               (1200, EStart); (1300, EDispose)]
              (run disposed_asleep init).1) as [S D].
  split; [apply S | apply D]; reflexivity.
Defined.

(** X2: in every reachable state at most one thing is going on: the
    suspended invocations of [_makeIDEConnection] and the connections
    that have not ended are at most one in total.  Cycles never overlap
    and none runs while a connection is alive. *)
Theorem at_most_one_active tr :
  let w := (run tr init).1 in
  (npending w + count_if live (heap w) <= 1)%nat.
Proof.
  intros w. pose proof (reachable_WInv tr) as I. fold w in I.
  pose proof (inv_one _ I) as One. unfold nlistening in One.
  rewrite (count_if_ext live listening); [done|].
  intros i x Hx. unfold live. rewrite (inv_ended _ I _ _ Hx).
  by destruct (listening x).
Qed.

(** X3: in every reachable state a connection that has not ended is the
    current one, the subscription held is the one on it, its listener
    is registered, and the watcher is not disposed. *)
Theorem live_connection_is_current tr c ob :
  let w := (run tr init).1 in
  heap w !! c = Some ob -> conn_ended ob = false ->
  _currentIDEConnection (watcher w) = Some c /\
  _currentIDEConnectionSubscription (watcher w) = Some (SubOf c) /\
  (exists l, conn_listener ob = Some l) /\
  _isDisposed (watcher w) = false.
Proof.
  intros w Hc He. pose proof (reachable_WInv tr) as I. fold w in I.
  pose proof (inv_ended _ I _ _ Hc) as E. rewrite He in E.
  assert (listening ob = true) as L by (by destruct (listening ob)).
  destruct (inv_cur _ I _ _ Hc L) as [C D].
  rewrite (inv_sub _ I), C. repeat split; try done.
  unfold listening in L. destruct (conn_listener ob); [eauto | done].
Qed.

Lemma live_connection_is_current_witness :
  let w := (run connected init).1 in
  (heap w !! 0%nat = Some (mkConnection 7%nat false (Some (mkListener 5))) /\
   conn_ended (mkConnection 7%nat false (Some (mkListener 5))) = false) /\
  _currentIDEConnection (watcher w) = Some 0%nat /\
  _currentIDEConnectionSubscription (watcher w) = Some (SubOf 0%nat) /\
  (exists l, conn_listener (mkConnection 7%nat false (Some (mkListener 5)))
             = Some l) /\
  _isDisposed (watcher w) = false.
Proof.
  split; [split; reflexivity|].
  apply (live_connection_is_current connected 0%nat
           (mkConnection 7%nat false (Some (mkListener 5)))); reflexivity.
Defined.

(** X4: in every reachable state the streak counter is between 0 and
    [MAX_UNHEALTHY_CONNECTIONS], and when it is at the limit supervision
    is over: whatever happens next, no attempt is started and the
    callback is not invoked. *)
Theorem streak_is_bounded tr :
  let w := (run tr init).1 in
  0 <= _consecutiveUnhealthyConnections (watcher w)
    <= MAX_UNHEALTHY_CONNECTIONS /\
  (_consecutiveUnhealthyConnections (watcher w) = MAX_UNHEALTHY_CONNECTIONS ->
   forall tr', spawns (run tr' w).2 = 0%nat /\ callbacks (run tr' w).2 = []).
Proof.
  intros w. pose proof (reachable_WInv tr) as I. fold w in I.
  destruct (inv_count _ I) as [B A]. split; [done|].
  intros E tr'.
  assert (quiescent w) as Q.
  { unfold quiescent. split.
    - destruct (_isStarted (watcher w)) eqn:S; [done|].
      destruct (inv_unstarted _ I S) as (_ & _ & Z0).
      rewrite Z0 in E. discriminate.
    - assert (~ (1 <= npending w + nlistening w)%nat) by (intros X; specialize (A X); lia).
      lia. }
  destruct (run tr' w) as [w' o] eqn:R.
  by destruct (quiescent_run _ _ _ _ Q R) as (_ & ? & ?).
Qed.

Lemma streak_is_bounded_witness :
  let w := (run given_up init).1 in
  _consecutiveUnhealthyConnections (watcher w) = MAX_UNHEALTHY_CONNECTIONS /\
  forall tr', spawns (run tr' w).2 = 0%nat /\ callbacks (run tr' w).2 = [].
Proof.
  split; [vm_compute; reflexivity|].
  destruct (streak_is_bounded given_up) as [_ H].
  apply H. vm_compute. reflexivity.
Defined.

(** X5: the deadline only ends the wait for absences.  A handle that
    arrives after the deadline, to a watcher that is not disposed, is
    adopted like any other: the factory makes a connection from it, the
    callback receives the connection, it becomes the current one with
    its listener registered, and the streak counter is untouched. *)
Theorem late_handle_is_adopted t id p w endTimeMS attemptStartTime :
  cycles w !! id = Some (AwaitProcess endTimeMS attemptStartTime) ->
  _isDisposed (watcher w) = false ->
  endTimeMS < t ->
  let '(w', o) := step t (EProcess id (Some p)) w in
  o = [AFactory p (length (heap w)); ACallback (Some (length (heap w)));
       AResolve id] /\
  _currentIDEConnection (watcher w') = Some (length (heap w)) /\
  _currentIDEConnectionSubscription (watcher w')
    = Some (SubOf (length (heap w))) /\
  heap w' !! length (heap w)
    = Some (mkConnection p false (Some (mkListener t))) /\
  cycles w' !! id = Some Returned /\
  _consecutiveUnhealthyConnections (watcher w')
    = _consecutiveUnhealthyConnections (watcher w).
Proof.
  intros C D _. rewrite (step_process_connect _ _ _ _ _ _ C D). simpl.
  repeat split.
  - apply lookup_snoc_len.
  - apply (lookup_insert_same _ _ _ _ C).
Qed.

Lemma late_handle_is_adopted_witness :
  let w := (step 0 EStart init).1 in
  (cycles w !! 0%nat = Some (AwaitProcess 1200000 0) /\
   _isDisposed (watcher w) = false /\ 1200000 < 1300000) /\
  let '(w', o) := step 1300000 (EProcess 0%nat (Some 7%nat)) w in
  o = [AFactory 7%nat (length (heap w)); ACallback (Some (length (heap w)));
       AResolve 0%nat] /\
  _currentIDEConnection (watcher w') = Some (length (heap w)) /\
  _currentIDEConnectionSubscription (watcher w')
    = Some (SubOf (length (heap w))) /\
  heap w' !! length (heap w)
    = Some (mkConnection 7%nat false (Some (mkListener 1300000))) /\
  cycles w' !! 0%nat = Some Returned /\
  _consecutiveUnhealthyConnections (watcher w')
    = _consecutiveUnhealthyConnections (watcher w).
Proof.
  split; [repeat split; lia|].
  apply (late_handle_is_adopted 1300000 0%nat 7%nat (step 0 EStart init).1
           1200000 0); [reflexivity | reflexivity | lia].
Defined.

Lemma step_kill t e w w' o p :
  step t e w = (w', o) -> In (AKill p) o ->
  _isDisposed (watcher w) = true /\
  exists id endTimeMS attemptStartTime,
    e = EProcess id (Some p) /\
    cycles w !! id = Some (AwaitProcess endTimeMS attemptStartTime) /\
    o = [AKill p; AResolve id].
Proof.
  intros H Hin. split_world w.
  destruct e; crunch; simplify_eq; simpl in Hin; intuition (try discriminate).
  all: simplify_eq; eauto 10.
Qed.

(** X6: the watcher kills a process handle only when it is disposed:
    the step that kills [p] is the arrival of [p] at a disposed watcher,
    and over a run that leaves the watcher not disposed no handle is
    killed. *)
Theorem kill_only_when_disposed tr : forall w,
  (forall t e p, In (AKill p) (step t e w).2 ->
     _isDisposed (watcher w) = true /\ exists id, e = EProcess id (Some p)) /\
  (_isDisposed (watcher (run tr w).1) = false ->
   forall p, ~ In (AKill p) (run tr w).2).
Proof.
  assert (forall w t e p, In (AKill p) (step t e w).2 ->
            _isDisposed (watcher w) = true /\
            exists id, e = EProcess id (Some p)) as Step.
  { intros w t e p Hin. destruct (step t e w) as [w' o] eqn:E.
    destruct (step_kill _ _ _ _ _ _ E Hin) as (D & id & ? & ? & -> & _).
    eauto. }
  induction tr as [|[t e] tr IH]; intros w; (split; [apply Step|]); simpl.
  - intros _ p [].
  - destruct (step t e w) as [w1 o1] eqn:E1.
    destruct (IH w1) as [_ K]. pose proof (flags_are_monotonic_aux tr w1) as M.
    destruct (run tr w1) as [w2 o2] eqn:E2. simpl in *.
    intros D p Hin. apply in_app_or in Hin as [Hin|Hin]; [|by apply (K D p)].
    destruct (step_kill _ _ _ _ _ _ E1 Hin) as (X & _).
    destruct (step_flags _ _ _ _ _ E1) as [_ D1].
    rewrite (M (D1 X)) in D. done.
Qed.

Lemma kill_only_when_disposed_witness :
  (In (AKill 5%nat)
      (step 1100 (EProcess 0%nat (Some 5%nat))
         (run (disposed_asleep ++ [(1000, ESleepDone 0%nat)]) init).1).2 /\
   _isDisposed
     (watcher (run (disposed_asleep ++ [(1000, ESleepDone 0%nat)]) init).1)
   = true) /\
  (_isDisposed (watcher (run reconnect init).1) = false /\
   forall p, ~ In (AKill p) (run reconnect init).2).
Proof.
  split.
  - split; [vm_compute; auto|].
    destruct (kill_only_when_disposed []
                (run (disposed_asleep ++ [(1000, ESleepDone 0%nat)]) init).1)
      as [H _].
    apply (H 1100 (EProcess 0%nat (Some 5%nat)) 5%nat). vm_compute. auto.
  - split; [reflexivity|].
    destruct (kill_only_when_disposed reconnect init) as [_ H].
    apply H. reflexivity.
Defined.

Lemma lookup_insert_deadline (l : list Cycle) i id x y c :
  l !! i = Some x -> l !! id = Some c ->
  y = Returned \/ deadline y = deadline x ->
  exists c', <[i:=y]> l !! id = Some c' /\
             (c' = Returned \/ deadline c' = deadline c).
Proof.
  intros Hi Hid Hy. destruct (decide (i = id)) as [->|N].
  - exists y. split; [by eapply lookup_insert_same|]. congruence.
  - exists c. split; [by rewrite list_lookup_insert_ne | by right].
Qed.

Lemma step_deadline t e w w' o id c :
  step t e w = (w', o) -> cycles w !! id = Some c ->
  exists c', cycles w' !! id = Some c' /\
             (c' = Returned \/ deadline c' = deadline c).
Proof.
  intros H C. split_world w. simpl in C.
  destruct e; crunch; simplify_eq.
  all: first
    [ eapply lookup_insert_deadline; [eassumption | eassumption | simpl; auto]
    | exists c; split; [by apply lookup_app_l_Some | by right]
    | exists c; split; [assumption | by right] ].
Qed.

(** X7: the deadline of an acquisition cycle is computed once: over any
    run from any state, an invocation of [_makeIDEConnection] that was
    suspended with deadline [d] is later either returned or suspended
    with the same deadline [d]; retries and sleeps never extend it, and
    an invocation that has returned stays returned. *)
Theorem deadline_is_fixed tr : forall w id c,
  cycles w !! id = Some c ->
  exists c', cycles (run tr w).1 !! id = Some c' /\
             (c' = Returned \/ deadline c' = deadline c).
Proof.
  induction tr as [|[t e] tr IH]; intros w id c C; simpl.
  - eauto.
  - destruct (step t e w) as [w1 o1] eqn:E1.
    destruct (step_deadline _ _ _ _ _ _ _ E1 C) as (c1 & C1 & H1).
    specialize (IH w1 id c1 C1). destruct (run tr w1) as [w2 o2]. simpl in *.
    destruct IH as (c2 & C2 & H2). exists c2. split; [done|].
    destruct H2 as [->|H2]; [by left|].
    destruct H1 as [->|H1]; [|right; congruence].
    destruct c2; simpl in H2; try discriminate. by left.
Qed.

Lemma deadline_is_fixed_witness :
  let w := (step 0 EStart init).1 in
  cycles w !! 0%nat = Some (AwaitProcess 1200000 0) /\
  exists c',
    cycles (run [(200, EProcess 0%nat None); (1000, ESleepDone 0%nat);
                 (2500, EProcess 0%nat None)] w).1 !! 0%nat = Some c' /\
    (c' = Returned \/ deadline c' = deadline (AwaitProcess 1200000 0)).
Proof.
  split; [reflexivity|].
  apply (deadline_is_fixed
           [(200, EProcess 0%nat None); (1000, ESleepDone 0%nat);
            (2500, EProcess 0%nat None)]
           (step 0 EStart init).1 0%nat (AwaitProcess 1200000 0)).
  reflexivity.
Defined.

(** X8: attempts are throttled to the minimum interval whatever the
    attempt took: after an absence before the deadline the next request
    is made either at once, when at least
    [IDE_CONNECTION_MIN_INTERVAL_MS] have passed since the attempt
    started, or after a sleep that is due exactly
    [IDE_CONNECTION_MIN_INTERVAL_MS] after the attempt started. *)
Theorem attempts_are_throttled t t' id w endTimeMS attemptStartTime :
  cycles w !! id = Some (AwaitProcess endTimeMS attemptStartTime) ->
  _isDisposed (watcher w) = false ->
  t <= endTimeMS ->
  let w1 := (step t (EProcess id None) w).1 in
  (cycles w1 !! id = Some (AwaitProcess endTimeMS t) /\
   attemptStartTime + IDE_CONNECTION_MIN_INTERVAL_MS <= t) \/
  (cycles w1 !! id
     = Some (AwaitSleep endTimeMS
               (attemptStartTime + IDE_CONNECTION_MIN_INTERVAL_MS)) /\
   t < attemptStartTime + IDE_CONNECTION_MIN_INTERVAL_MS /\
   cycles (step t' (ESleepDone id) w1).1 !! id
     = Some (AwaitProcess endTimeMS t')).
Proof.
  intros C D T.
  destruct (Z.lt_ge_cases 0
              (IDE_CONNECTION_MIN_INTERVAL_MS - (t - attemptStartTime)))
    as [W|W].
  - right. rewrite (step_process_sleep _ _ _ _ _ C D T W). simpl.
    replace (t + (IDE_CONNECTION_MIN_INTERVAL_MS - (t - attemptStartTime)))
      with (attemptStartTime + IDE_CONNECTION_MIN_INTERVAL_MS) by lia.
    pose proof (lookup_insert_same _ _ _
                  (AwaitSleep endTimeMS
                     (attemptStartTime + IDE_CONNECTION_MIN_INTERVAL_MS)) C)
      as C1.
    split; [done|]. split; [lia|].
    erewrite step_sleep_done; [|exact C1]. simpl.
    rewrite list_insert_insert_eq. apply (lookup_insert_same _ _ _ _ C).
  - left. rewrite (step_process_retry _ _ _ _ _ C D T W). simpl.
    split; [apply (lookup_insert_same _ _ _ _ C) | lia].
Qed.

Lemma attempts_are_throttled_witness :
  let w := (step 0 EStart init).1 in
  (cycles w !! 0%nat = Some (AwaitProcess 1200000 0) /\
   _isDisposed (watcher w) = false /\ 200 <= 1200000) /\
  let w1 := (step 200 (EProcess 0%nat None) w).1 in
  (cycles w1 !! 0%nat = Some (AwaitProcess 1200000 200) /\
   0 + IDE_CONNECTION_MIN_INTERVAL_MS <= 200) \/
  (cycles w1 !! 0%nat
     = Some (AwaitSleep 1200000 (0 + IDE_CONNECTION_MIN_INTERVAL_MS)) /\
   200 < 0 + IDE_CONNECTION_MIN_INTERVAL_MS /\
   cycles (step 1000 (ESleepDone 0%nat) w1).1 !! 0%nat
     = Some (AwaitProcess 1200000 1000)).
Proof.
  split; [repeat split; lia|].
  apply (attempts_are_throttled 200 1000 0%nat (step 0 EStart init).1
           1200000 0); [reflexivity | reflexivity | lia].
Defined.

(** X9: in every reachable state, an absence that arrives after the
    deadline of the cycle ends supervision for good, whichever cycle it
    is: the give-up is logged, the promise resolves, the fields of the
    watcher are untouched, and whatever happens next no attempt is
    started and the callback is not invoked. *)
Theorem timeout_ends_supervision tr t id endTimeMS attemptStartTime :
  let w := (run tr init).1 in
  cycles w !! id = Some (AwaitProcess endTimeMS attemptStartTime) ->
  _isDisposed (watcher w) = false ->
  endTimeMS < t ->
  let '(w', o) := step t (EProcess id None) w in
  o = [ALog LogGiveUpStart; AResolve id] /\
  watcher w' = watcher w /\
  forall tr', spawns (run tr' w').2 = 0%nat /\ callbacks (run tr' w').2 = [].
Proof.
  intros w C D T. pose proof (reachable_WInv tr) as I. fold w in I.
  rewrite (step_process_give_up _ _ _ _ _ C D T). simpl.
  split; [done|]. split; [done|]. intros tr'.
  assert (quiescent (with_cycles (fun l => <[id:=Returned]> l) (with_now t w)))
    as Q.
  { pose proof (inv_one _ I) as One.
    pose proof (count_if_lookup pending _ _ _ C eq_refl) as P.
    pose proof (count_if_insert pending _ _ _ Returned C) as X. simpl in X.
    unfold quiescent, npending, nlistening in *. simpl.
    split; [|lia].
    destruct (_isStarted (watcher w)) eqn:S; [done|].
    destruct (inv_unstarted _ I S) as (Y & _). rewrite Y in C. done. }
  destruct (run tr' _) as [w2 o2] eqn:R.
  by destruct (quiescent_run _ _ _ _ Q R) as (_ & ? & ?).
Qed.

Lemma timeout_ends_supervision_witness :
  let w := (run reconnect init).1 in
  (cycles w !! 1%nat = Some (AwaitProcess 1220000 20000) /\
   _isDisposed (watcher w) = false /\ 1220000 < 1220001) /\
  let '(w', o) := step 1220001 (EProcess 1%nat None) w in
  o = [ALog LogGiveUpStart; AResolve 1%nat] /\
  watcher w' = watcher w /\
  forall tr', spawns (run tr' w').2 = 0%nat /\ callbacks (run tr' w').2 = [].
Proof.
  split; [repeat split; lia|].
  apply (timeout_ends_supervision reconnect 1220001 1%nat 1220000 20000);
    [reflexivity | reflexivity | lia].
Defined.




Lemma disposals_app a b : disposals (a ++ b) = (disposals a + disposals b)%nat.
Proof. unfold disposals. by rewrite List.filter_app, length_app. Qed.

Lemma step_disposals t e w w' o :
  step t e w = (w', o) ->
  (disposals o <= 1)%nat /\
  (_isDisposed (watcher w) = true -> disposals o = 0%nat) /\
  (forall c, In (AConnDispose c) o ->
     e = EDispose /\ _isDisposed (watcher w) = false /\
     _isDisposed (watcher w') = true /\
     _currentIDEConnection (watcher w) = Some c).
Proof.
  intros H. split_world w.
  destruct e; crunch; simplify_eq; simpl.
  all: try match goal with H : negb ?b = _ |- _ => destruct b; try discriminate end.
  all: split; [unfold disposals; simpl; lia | split; [done|]].
  all: intros ? Hin; simpl in Hin; intuition (simplify_eq; done).
Qed.

Lemma run_disposals_disposed tr : forall w,
  _isDisposed (watcher w) = true -> disposals (run tr w).2 = 0%nat.
Proof.
  induction tr as [|[t e] tr IH]; intros w D; simpl; [done|].
  destruct (step t e w) as [w1 o1] eqn:E1.
  destruct (step_disposals _ _ _ _ _ E1) as (_ & Z0 & _).
  destruct (step_flags _ _ _ _ _ E1) as [_ D1].
  specialize (IH w1 (D1 D)). destruct (run tr w1) as [w2 o2]. simpl in *.
  rewrite disposals_app, (Z0 D), IH. done.
Qed.

(** X11: the watcher disposes a connection only in its own [dispose()],
    and then the current one: the step that calls
    [connection.dispose()] on [c] is the first [dispose()] of a watcher
    whose current connection is [c]; and over any run from any state
    the watcher makes at most one such call. *)
Theorem connection_disposed_only_by_dispose tr : forall w,
  (forall t e c, In (AConnDispose c) (step t e w).2 ->
     e = EDispose /\ _isDisposed (watcher w) = false /\
     _currentIDEConnection (watcher w) = Some c) /\
  (disposals (run tr w).2 <= 1)%nat.
Proof.
  induction tr as [|[t e] tr IH]; intros w.
  - split; [|unfold disposals; simpl; lia].
    intros t e c Hin. destruct (step t e w) as [w' o] eqn:E.
    destruct (step_disposals _ _ _ _ _ E) as (_ & _ & H).
    destruct (H c Hin) as (? & ? & _ & ?). done.
  - split.
    + intros t' e' c Hin. destruct (step t' e' w) as [w' o] eqn:E.
      destruct (step_disposals _ _ _ _ _ E) as (_ & _ & H).
      destruct (H c Hin) as (? & ? & _ & ?). done.
    + simpl. destruct (step t e w) as [w1 o1] eqn:E1.
      destruct (IH w1) as [_ B].
      pose proof (run_disposals_disposed tr w1) as Z1.
      destruct (run tr w1) as [w2 o2]. simpl in *.
      rewrite disposals_app.
      destruct (step_disposals _ _ _ _ _ E1) as (L1 & _ & H).
      destruct (decide (disposals o1 = 0%nat)) as [Z0|N]; [lia|].
      assert (_isDisposed (watcher w1) = true) as D1.
      { unfold disposals in N.
        destruct (List.filter is_connection_dispose o1) as [|a l] eqn:F;
          [done|].
        assert (In a (List.filter is_connection_dispose o1)) as Hin
          by (rewrite F; left; done).
        apply List.filter_In in Hin as [Hin Ha].
        destruct a; try discriminate.
        by destruct (H _ Hin) as (_ & _ & ? & _). }
      rewrite (Z1 D1). lia.
Qed.

Lemma connection_disposed_only_by_dispose_witness :
  (In (AConnDispose 0%nat) (step 50 EDispose (run connected init).1).2 /\
   EDispose = EDispose /\
   _isDisposed (watcher (run connected init).1) = false /\
   _currentIDEConnection (watcher (run connected init).1) = Some 0%nat) /\
  (disposals (run disposed_twice init).2 <= 1)%nat.
Proof.
  split.
  - split; [vm_compute; auto|].
    destruct (connection_disposed_only_by_dispose [] (run connected init).1)
      as [H _].
    apply (H 50 EDispose 0%nat). vm_compute. auto.
  - apply (connection_disposed_only_by_dispose disposed_twice init).
Defined.

(** X12: a connection that lived at least the health threshold never
    makes the watcher give up: in every reachable state, whatever the
    streak was, its end is reported to the callback and a new
    acquisition cycle is started, with a deadline of its own counted
    from the time of that end. *)
Theorem healthy_end_restarts tr t c ob l :
  let w := (run tr init).1 in
  heap w !! c = Some ob -> conn_listener ob = Some l ->
  IDE_CONNECTION_HEALTHY_THRESHOLD_MS <= t - connectionStartTime l ->
  let '(w', o) := step t (ETerminate c) w in
  o = [ACallback None; ALog LogAttempting; ASpawn (length (cycles w))] /\
  cycles w' = cycles w ++ [AwaitProcess (t + IDE_CONNECTION_MAX_WAIT_MS) t] /\
  heap w' !! c = Some (mkConnection (conn_proc ob) true None) /\
  _currentIDEConnection (watcher w') = Some c.
Proof.
  intros w Hc Hl U. pose proof (reachable_WInv tr) as I. fold w in I.
  assert (listening ob = true) as L by (unfold listening; by rewrite Hl).
  pose proof (inv_ended _ I _ _ Hc) as E. rewrite L in E. simpl in E.
  destruct (inv_cur _ I _ _ Hc L) as [C _].
  rewrite (step_terminate_healthy _ _ _ _ _ Hc E Hl U). simpl.
  repeat split; [|done]. apply (lookup_insert_same _ _ _ _ Hc).
Qed.

(** Nineteen short-lived connections, then one that lives 20 s. *)
Lemma healthy_end_restarts_witness :
  let w := (run nineteen_crashes init).1 in
  (heap w !! 19%nat = Some (mkConnection 19%nat false (Some (mkListener 19))) /\
   _consecutiveUnhealthyConnections (watcher w) = 19 /\
   IDE_CONNECTION_HEALTHY_THRESHOLD_MS <= 20019 - 19) /\
  let '(w', o) := step 20019 (ETerminate 19%nat) w in
  o = [ACallback None; ALog LogAttempting; ASpawn (length (cycles w))] /\
  cycles w'
    = cycles w ++ [AwaitProcess (20019 + IDE_CONNECTION_MAX_WAIT_MS) 20019] /\
  heap w' !! 19%nat = Some (mkConnection 19%nat true None) /\
  _currentIDEConnection (watcher w') = Some 19%nat.
Proof.
  split; [vm_compute; repeat split; discriminate|].
  apply (healthy_end_restarts nineteen_crashes 20019 19%nat
           (mkConnection 19%nat false (Some (mkListener 19))) (mkListener 19)).
  - vm_compute; reflexivity.
  - reflexivity.
  - vm_compute; discriminate.
Defined.

(** X13: in every reachable state, a cycle of a disposed watcher ends
    with the next answer of the process source, whatever it is: a
    handle is killed, an absence needs nothing; no give-up is logged,
    nothing is retried, the promise resolves, and from then on no
    attempt is started and the callback is not invoked. *)
Theorem disposed_cycle_ends_with_the_answer tr t id proc
    endTimeMS attemptStartTime :
  let w := (run tr init).1 in
  cycles w !! id = Some (AwaitProcess endTimeMS attemptStartTime) ->
  _isDisposed (watcher w) = true ->
  let '(w', o) := step t (EProcess id proc) w in
  o = match proc with Some p => [AKill p] | None => [] end ++ [AResolve id] /\
  watcher w' = watcher w /\ heap w' = heap w /\
  forall tr', spawns (run tr' w').2 = 0%nat /\ callbacks (run tr' w').2 = [].
Proof.
  intros w C D. pose proof (reachable_WInv tr) as I. fold w in I.
  rewrite (step_process_disposed _ _ proc _ _ _ C D). simpl.
  split; [done|]. split; [done|]. split; [done|]. intros tr'.
  assert (quiescent (with_cycles (fun l => <[id:=Returned]> l) (with_now t w)))
    as Q.
  { pose proof (inv_one _ I) as One.
    pose proof (count_if_lookup pending _ _ _ C eq_refl) as P.
    pose proof (count_if_insert pending _ _ _ Returned C) as X. simpl in X.
    unfold quiescent, npending, nlistening in *. simpl.
    split; [|lia].
    destruct (_isStarted (watcher w)) eqn:S; [done|].
    destruct (inv_unstarted _ I S) as (Y & _). rewrite Y in C. done. }
  destruct (run tr' _) as [w2 o2] eqn:R.
  by destruct (quiescent_run _ _ _ _ Q R) as (_ & ? & ?).
Qed.

Lemma disposed_cycle_ends_with_the_answer_witness :
  let w := (run [(0, EStart); (100, EDispose)] init).1 in
  (cycles w !! 0%nat = Some (AwaitProcess 1200000 0) /\
   _isDisposed (watcher w) = true) /\
  let '(w', o) := step 200 (EProcess 0%nat None) w in
  o = [] ++ [AResolve 0%nat] /\
  watcher w' = watcher w /\ heap w' = heap w /\
  forall tr', spawns (run tr' w').2 = 0%nat /\ callbacks (run tr' w').2 = [].
Proof.
  split; [split; reflexivity|].
  apply (disposed_cycle_ends_with_the_answer [(0, EStart); (100, EDispose)]
           200 0%nat None 1200000 0); reflexivity.
Defined.
